(** * sequelize-migrator: SQL splitter and migration runner

    A shallow embedding of [migration-sql-parse.js] and of the two
    [Migrator] classes (the async/await one and the promise-chain one),
    together with the properties of the specification that concern them.

    JavaScript strings are modelled by [string]; a character stands for one
    code unit.  Nothing below depends on the size of the alphabet. *)

From Stdlib Require Import Strings.String Strings.Ascii ZArith Lia.
From stdpp Require Import base list strings gmap sorting.

Local Open Scope string_scope.

(** ** JavaScript values and string primitives *)

Module Js.

(** The values that reach the splitter: its documented argument type is
    String; [undefined] (also: argument left out), [null] and booleans
    are kept to model the guards.  Numbers and objects are left out. *)
Inductive jsval :=
| JUndefined
| JNull
| JBool (b : bool)
| JStr (s : string).

(** ToBoolean, as used by [!x] and [x || y]. *)
Definition truthy (v : jsval) : bool :=
  match v with
  | JUndefined | JNull => false
  | JBool b => b
  | JStr s => negb (String.eqb s "")
  end.

Definition typeof (v : jsval) : string :=
  match v with
  | JUndefined => "undefined"
  | JNull => "object"
  | JBool _ => "boolean"
  | JStr _ => "string"
  end.

(** ToString, applied by [String.prototype.indexOf] to its argument. *)
Definition ToString (v : jsval) : string :=
  match v with
  | JUndefined => "undefined"
  | JNull => "null"
  | JBool true => "true"
  | JBool false => "false"
  | JStr s => s
  end.

(** A plain object used as a property bag; reading an absent property
    gives [undefined]. *)
Definition get_prop (o : gmap string jsval) (k : string) : jsval :=
  default JUndefined (o !! k).

(** Position of the first occurrence of [d] in [s], if any. *)
Fixpoint index_of (d s : string) : option nat :=
  if String.prefix d s then Some 0
  else match s with
       | EmptyString => None
       | String _ s' => S <$> index_of d s'
       end.

(** [s.indexOf(d)]: the position of the first occurrence, or -1. *)
Definition indexOf (s d : string) : Z :=
  match index_of d s with
  | Some n => Z.of_nat n
  | None => (-1)%Z
  end.

(** [s.substr(start, len)] and [s.substr(start)] for [0 <= start]. *)
Definition substr (s : string) (start : Z) (len : Z) : string :=
  String.substring (Z.to_nat start) (Z.to_nat len) s.

Definition substr_from (s : string) (start : Z) : string :=
  String.substring (Z.to_nat start) (String.length s - Z.to_nat start) s.

(** WhiteSpace and LineTerminator code points of ECMAScript that fit in
    one byte: TAB, LF, VT, FF, CR, SPACE and NBSP. *)
Definition is_white_space (c : ascii) : bool :=
  let n := nat_of_ascii c in
  (Nat.eqb n 9 || Nat.eqb n 10 || Nat.eqb n 11 || Nat.eqb n 12
   || Nat.eqb n 13 || Nat.eqb n 32 || Nat.eqb n 160)%bool.

Definition whitespace_only (s : string) : bool :=
  forallb is_white_space (list_ascii_of_string s).

End Js.

Export Js.

(** ** Errors and outcomes *)

Inductive error :=
| Error (message : string)            (* [new Error(message)] *)
| TypeError (message : string)
| ReferenceError (message : string)
| IOError (path : string)             (* rejected by [fs] *)
| DatabaseError (sql : string)        (* the database refused a statement *)
| UniqueConstraintError (name : string)
| NoSuchTable.

Inductive outcome (A : Type) :=
| Ok (a : A)
| Throw (e : error).
Arguments Ok {A} a.
Arguments Throw {A} e.

(** ** migration-sql-parse.js *)

Module SqlParse.

Definition nl : string := String (ascii_of_nat 10) EmptyString.

Definition kDefaultDelimiter : string :=
  nl ++ "-- MIGRATION DOWN SQL" ++ nl.

(** The CommonJS binding [exports].  The file replaces [module.exports]
    by the function and then sets [module.exports.kDefaultDelimiter];
    the object bound to [exports] itself never receives a property. *)
Definition exports : gmap string jsval := ∅.

(** The properties of the exported function object. *)
Definition module_exports : gmap string jsval :=
  {[ "kDefaultDelimiter" := JStr kDefaultDelimiter ]}.

Record payload := { up : string; down : option string }.

(** [module.exports = function(migrationSql, optDelimiter = kDefaultDelimiter)].
    An argument that is [undefined] or left out takes its default. *)
Definition migrationSqlParse (migrationSql optDelimiter : jsval)
  : outcome payload :=
  let optDelimiter :=
    match optDelimiter with
    | JUndefined => JStr kDefaultDelimiter
    | v => v
    end in
  if negb (truthy migrationSql) then
    Throw (Error "Missing / empty migration SQL argument")
  else
    match migrationSql with
    | JStr sql =>
        let delimiter :=
          if truthy optDelimiter then optDelimiter
          else get_prop exports "kDefaultDelimiter" in
        let delimiterPosition := indexOf sql (ToString delimiter) in
        if (0 <=? delimiterPosition)%Z then
          Ok {| up := substr sql 0 delimiterPosition;
                down := Some (substr_from sql delimiterPosition) |}
        else
          Ok {| up := sql; down := None |}
    | v =>
        Throw (Error ("migration SQL must be string; got "
                      ++ typeof v ++ " instead"))
    end.

End SqlParse.

Export SqlParse.

(** ** The collaborators: file system, database session, Sequelize

    The runner talks to a directory of migration files and to one
    PostgreSQL session through Sequelize.  Both are modelled as explicit
    state; every call leaves an [event] in the trace. *)

(** A [MigrationMeta] instance: [id] is absent until the row is saved. *)
Record instance := { inst_id : option nat; inst_name : string }.

(** What a transaction can undo: the ledger table ([None]: not created
    yet) with its rows [(id, name)], the [id] sequence, the migration
    statements in effect (oldest first) and the session's search path
    (in PostgreSQL a plain [SET] is undone with its transaction). *)
Record dbstate := {
  table : option (list (nat * string));
  serial : nat;
  applied : list string;
  search_path : string;
}.

(** An open transaction: its working state, the state at
    [SAVEPOINT migrations], the table lock, and PostgreSQL's aborted flag
    (set by a failed statement, cleared by ROLLBACK TO SAVEPOINT). *)
Record txn := {
  work : dbstate;
  savepoint : option dbstate;
  locked : bool;
  failed : bool;
}.

(** The handle given to the callback of [sequelize.transaction]. *)
Inductive transaction := Transaction.

Inductive event :=
| EvReaddir (path : string)
| EvReadFile (path : string)
| EvSync
| EvBegin
| EvCommit
| EvRollback
| EvQuery (sql : string)
| EvFindAll
| EvInsert (name : string)
| EvDelete (id : nat).

Record world := {
  (* the migrations directory; [None]: it cannot be listed; a file mapped
     to [None] cannot be read *)
  dir : option (gmap string (option string));
  (* whether the database executes a migration's SQL, given the
     statements already in effect *)
  accepts : list string -> string -> bool;
  committed : dbstate;
  tx : option txn;
  (* the mutable fields of the Migrator instance *)
  migrationFiles_ : option (list string);
  searchPath_ : option string;
  trace : list event;
}.

(** The fields of a Migrator fixed by its constructor.  No logger is
    configured, so [log_] does nothing and is left out. *)
Record migrator := {
  migrationFilePath_ : string;
  migrationFilePattern_ : string -> bool;
  modelName_ : string;
  tableName_ : string;
  schema_ : string;
}.

Definition set_table (t : option (list (nat * string))) (s : dbstate) :=
  {| table := t; serial := serial s; applied := applied s;
     search_path := search_path s |}.
Definition set_serial (n : nat) (s : dbstate) :=
  {| table := table s; serial := n; applied := applied s;
     search_path := search_path s |}.
Definition set_applied (a : list string) (s : dbstate) :=
  {| table := table s; serial := serial s; applied := a;
     search_path := search_path s |}.
Definition set_search_path (p : string) (s : dbstate) :=
  {| table := table s; serial := serial s; applied := applied s;
     search_path := p |}.

Definition set_work (s : dbstate) (x : txn) :=
  {| work := s; savepoint := savepoint x; locked := locked x;
     failed := failed x |}.
Definition set_savepoint (p : option dbstate) (x : txn) :=
  {| work := work x; savepoint := p; locked := locked x;
     failed := failed x |}.
Definition set_locked (b : bool) (x : txn) :=
  {| work := work x; savepoint := savepoint x; locked := b;
     failed := failed x |}.
Definition set_failed (b : bool) (x : txn) :=
  {| work := work x; savepoint := savepoint x; locked := locked x;
     failed := b |}.

Definition set_committed (s : dbstate) (w : world) :=
  {| dir := dir w; accepts := accepts w; committed := s; tx := tx w;
     migrationFiles_ := migrationFiles_ w; searchPath_ := searchPath_ w;
     trace := trace w |}.
Definition set_tx (x : option txn) (w : world) :=
  {| dir := dir w; accepts := accepts w; committed := committed w; tx := x;
     migrationFiles_ := migrationFiles_ w; searchPath_ := searchPath_ w;
     trace := trace w |}.
Definition set_searchPath_ (p : option string) (w : world) :=
  {| dir := dir w; accepts := accepts w; committed := committed w;
     tx := tx w; migrationFiles_ := migrationFiles_ w; searchPath_ := p;
     trace := trace w |}.
Definition set_migrationFiles_ (l : option (list string)) (w : world) :=
  {| dir := dir w; accepts := accepts w; committed := committed w;
     tx := tx w; migrationFiles_ := l; searchPath_ := searchPath_ w;
     trace := trace w |}.
Definition log (e : event) (w : world) :=
  {| dir := dir w; accepts := accepts w; committed := committed w;
     tx := tx w; migrationFiles_ := migrationFiles_ w;
     searchPath_ := searchPath_ w; trace := (trace w ++ [e])%list |}.

(** *** Promises as a state and exception monad *)

Definition M (A : Type) : Type := world -> outcome A * world.

Definition ret {A} (a : A) : M A := fun w => (Ok a, w).
Definition throw {A} (e : error) : M A := fun w => (Throw e, w).
Definition bind {A B} (m : M A) (k : A -> M B) : M B :=
  fun w => match m w with
           | (Ok a, w') => k a w'
           | (Throw e, w') => (Throw e, w')
           end.
(** [try { m } catch (error) { h error }] and [promise.catch(h)]. *)
Definition try_catch {A} (m : M A) (h : error -> M A) : M A :=
  fun w => match m w with
           | (Ok a, w') => (Ok a, w')
           | (Throw e, w') => h e w'
           end.
Definition lift {A} (o : outcome A) : M A := fun w => (o, w).

Declare Scope promise_scope.
Delimit Scope promise_scope with promise.
Notation "'let*' x ':=' m 'in' k" := (bind m (fun x => k))
  (at level 10, x name, m at level 200, k at level 200) : promise_scope.
Local Open Scope promise_scope.

(** [Promise.all([a, b])]: both are started, in this order; the result
    is the first rejection, if any. *)
Definition promise_all2 {A B} (a : M A) (b : M B) : M (A * B) :=
  fun w => let '(ra, w1) := a w in
           let '(rb, w2) := b w1 in
           match ra, rb with
           | Ok x, Ok y => (Ok (x, y), w2)
           | Throw e, _ => (Throw e, w2)
           | _, Throw e => (Throw e, w2)
           end.

(** *** fs *)

(** [path.resolve(dir, name)] *)
Definition resolve (path name : string) : string := path ++ "/" ++ name.

(** [fs.readdir(path, 'utf8', callback)] wrapped in a promise. *)
Definition readdir (path : string) : M (list string) := fun w =>
  let w := log (EvReaddir path) w in
  match dir w with
  | None => (Throw (IOError path), w)
  | Some d => (Ok (map_to_list d).*1, w)
  end.

(** [fs.readFile(path.resolve(path, name), 'utf8', callback)] wrapped in
    a promise. *)
Definition readFile (path name : string) : M string := fun w =>
  let w := log (EvReadFile (resolve path name)) w in
  match dir w with
  | None => (Throw (IOError (resolve path name)), w)
  | Some d =>
      match d !! name with
      | Some (Some sql) => (Ok sql, w)
      | _ => (Throw (IOError (resolve path name)), w)
      end
  end.

(** *** The PostgreSQL session behind Sequelize *)

Definition fresh_txn (s : dbstate) : txn :=
  {| work := s; savepoint := None; locked := false; failed := false |}.

(** Going back to an earlier state keeps the sequence: [nextval] is never
    undone. *)
Definition restore (snapshot current : dbstate) : dbstate :=
  set_serial (serial current) snapshot.

(** A statement sent with [{transaction}]. *)
Definition in_txn {A} (ev : event) (f : txn -> outcome (A * txn)) : M A :=
  fun w =>
    let w := log ev w in
    match tx w with
    | None => (Throw (Error "the transaction has been finished"), w)
    | Some x =>
        if failed x then
          (Throw (DatabaseError "current transaction is aborted"), w)
        else
          match f x with
          | Ok (a, x') => (Ok a, set_tx (Some x') w)
          | Throw e => (Throw e, set_tx (Some (set_failed true x)) w)
          end
    end.

Definition on_work {A} (f : dbstate -> outcome (A * dbstate)) (x : txn)
  : outcome (A * txn) :=
  match f (work x) with
  | Ok (a, s) => Ok (a, set_work s x)
  | Throw e => Throw e
  end.

(** A statement sent without a transaction commits on its own. *)
Definition autocommit {A} (ev : event) (f : dbstate -> outcome (A * dbstate))
  : M A :=
  fun w =>
    let w := log ev w in
    match f (committed w) with
    | Ok (a, s) => (Ok a, set_committed s w)
    | Throw e => (Throw e, w)
    end.

Definition statement {A} (t : option transaction) (ev : event)
    (f : dbstate -> outcome (A * dbstate)) : M A :=
  match t with
  | Some _ => in_txn ev (on_work f)
  | None => autocommit ev f
  end.

(** [transaction.commit()].  Committing an aborted transaction rolls it
    back. *)
Definition commit : M unit := fun w =>
  match tx w with
  | None =>
      (Throw (Error "Transaction cannot be committed because it has been finished"), w)
  | Some x =>
      let s := if failed x then restore (committed w) (work x) else work x in
      (Ok tt, set_tx None (set_committed s (log EvCommit w)))
  end.

(** [transaction.rollback()] *)
Definition rollback : M unit := fun w =>
  match tx w with
  | None =>
      (Throw (Error "Transaction cannot be rolled back because it has been finished"), w)
  | Some x =>
      (Ok tt, set_tx None (set_committed (restore (committed w) (work x))
                             (log EvRollback w)))
  end.

(** [sequelize.transaction(autoCallback)]: begin, run the callback, commit
    when it fulfils; when it rejects, roll back unless the transaction is
    already finished, and reject with the same error. *)
Definition sequelize_transaction {A} (autoCallback : transaction -> M A)
  : M A :=
  fun w =>
    match tx w with
    | Some _ => (Throw (Error "the session is already in a transaction"), w)
    | None =>
        let w := set_tx (Some (fresh_txn (committed w))) (log EvBegin w) in
        try_catch
          (let* result := autoCallback Transaction in
           let* _ := commit in
           ret result)
          (fun err w' =>
             match tx w' with
             | Some _ => (Throw err, snd (rollback w'))
             | None => (Throw err, w')
             end) w
    end.

(** Rows in ascending [id]: [ORDER BY id ASC]. *)
Fixpoint insert_by_id (r : nat * string) (l : list (nat * string)) :=
  match l with
  | [] => [r]
  | r' :: l' => if (r.1 <=? r'.1)%nat then r :: l else r' :: insert_by_id r l'
  end.

Definition order_by_id (rows : list (nat * string)) : list (nat * string) :=
  foldr insert_by_id [] rows.

Definition to_instance (r : nat * string) : instance :=
  {| inst_id := Some r.1; inst_name := r.2 |}.

(** [model.sync()]: CREATE TABLE IF NOT EXISTS. *)
Definition sync : M unit :=
  autocommit EvSync (fun s =>
    Ok (tt, match table s with
            | None => set_table (Some []) s
            | Some _ => s
            end)).

(** [model.findAll({order: [['id', 'ASC']], attributes: ['id', 'name'],
    transaction})] *)
Definition findAll (t : option transaction) : M (list instance) :=
  statement t EvFindAll (fun s =>
    match table s with
    | None => Throw NoSuchTable
    | Some rows => Ok (to_instance <$> order_by_id rows, s)
    end).

(** [model.build({name})] *)
Definition build (name : string) : instance :=
  {| inst_id := None; inst_name := name |}.

(** [instance.save({transaction})]: INSERT; [name] is unique. *)
Definition save (i : instance) (t : transaction) : M unit :=
  statement (Some t) (EvInsert (inst_name i)) (fun s =>
    match table s with
    | None => Throw NoSuchTable
    | Some rows =>
        if decide (inst_name i ∈ rows.*2) then
          Throw (UniqueConstraintError (inst_name i))
        else
          Ok (tt, set_serial (S (serial s))
                    (set_table (Some (rows ++ [(serial s, inst_name i)])%list) s))
    end).

(** [instance.destroy({transaction})]: DELETE ... WHERE id = [id]. *)
Definition destroy (i : instance) (t : transaction) : M unit :=
  match inst_id i with
  | None => throw (Error "instance has no primary key")
  | Some n =>
      statement (Some t) (EvDelete n) (fun s =>
        match table s with
        | None => Throw NoSuchTable
        | Some rows => Ok (tt, set_table (Some (filter (λ r, r.1 ≠ n) rows)) s)
        end)
  end.

(** [sequelize.query(sql, {raw: true, transaction})] for the SQL of a
    migration: opaque, accepted or refused by the database. *)
Definition query (sql : string) (t : transaction) : M unit := fun w =>
  statement (Some t) (EvQuery sql) (fun s =>
    if accepts w (applied s) sql then
      Ok (tt, set_applied (applied s ++ [sql])%list s)
    else Throw (DatabaseError sql)) w.

(** The statements the runner issues itself. *)
Definition query_lock_table (sql : string) (t : transaction) : M unit :=
  in_txn (EvQuery sql) (fun x =>
    match table (work x) with
    | None => Throw NoSuchTable
    | Some _ => Ok (tt, set_locked true x)
    end).

Definition query_savepoint (sql : string) (t : transaction) : M unit :=
  in_txn (EvQuery sql) (fun x => Ok (tt, set_savepoint (Some (work x)) x)).

Definition query_release_savepoint (sql : string) (t : transaction)
  : M unit :=
  in_txn (EvQuery sql) (fun x =>
    match savepoint x with
    | None => Throw (DatabaseError "no such savepoint")
    | Some _ => Ok (tt, set_savepoint None x)
    end).

(** ROLLBACK TO SAVEPOINT is the one statement an aborted transaction
    accepts; the savepoint stays defined. *)
Definition query_rollback_to_savepoint (sql : string) (t : transaction)
  : M unit :=
  fun w =>
    let w := log (EvQuery sql) w in
    match tx w with
    | None => (Throw (Error "the transaction has been finished"), w)
    | Some x =>
        match savepoint x with
        | None =>
            (Throw (DatabaseError "no such savepoint"),
             set_tx (Some (set_failed true x)) w)
        | Some p =>
            (Ok tt,
             set_tx (Some (set_failed false (set_work (restore p (work x)) x))) w)
        end
    end.

Definition query_show_search_path (t : transaction) : M string :=
  statement (Some t) (EvQuery "SHOW search_path")
    (fun s => Ok (search_path s, s)).

Definition query_set_search_path (searchPath : string) (t : transaction)
  : M unit :=
  statement (Some t) (EvQuery ("set search_path to " ++ searchPath))
    (fun s => Ok (tt, set_search_path searchPath s)).

(** ** Migrator.js (async/await) *)

(** What both Migrator files share word for word: constants, helpers,
    constructor and the methods without control flow of their own. *)
Module Common.

Definition kSavePointName : string := "migrations".

Definition is_digit (c : ascii) : bool :=
  let n := nat_of_ascii c in ((48 <=? n) && (n <=? 57))%nat.

(** [\w] *)
Definition is_word (c : ascii) : bool :=
  let n := nat_of_ascii c in
  (is_digit c || ((65 <=? n) && (n <=? 90)) || ((97 <=? n) && (n <=? 122))
   || (n =? 95))%nat.

(** [[\w-_]] *)
Definition is_slug (c : ascii) : bool :=
  (is_word c || (nat_of_ascii c =? 45)%nat || (nat_of_ascii c =? 95)%nat).

(** [kDefaults.pattern.test(x)] for [/^\d{14}_\d{4}_[\w-_]+\.sql$/] *)
Definition kDefaults_pattern (x : string) : bool :=
  let cs := list_ascii_of_string x in
  let stamp := take 14 cs in
  let number := take 4 (drop 15 cs) in
  let rest := drop 20 cs in
  let slug := take (length rest - 4) rest in
  let suffix := drop (length rest - 4) rest in
  bool_decide (length stamp = 14) && forallb is_digit stamp
  && bool_decide (take 1 (drop 14 cs) = list_ascii_of_string "_")
  && bool_decide (length number = 4) && forallb is_digit number
  && bool_decide (take 1 (drop 19 cs) = list_ascii_of_string "_")
  && bool_decide (1 ≤ length slug)%nat && forallb is_slug slug
  && bool_decide (suffix = list_ascii_of_string ".sql").

Definition kDefaults_modelName : string := "MigrationMeta".
Definition kDefaults_tableName : string := "migrations_meta".

(** [difference(a, b)]: the elements of [a] that are not in [b]. *)
Definition difference (a b : list string) : list string :=
  let bSet : gset string := list_to_set b in
  filter (λ x, x ∉ bSet) a.

(** [Array.prototype.sort()] on strings: ascending by code units. *)
Definition sort (l : list string) : list string := merge_sort String.le l.

(** [Array.prototype.slice(begin)] *)
Definition slice {A} (begin_ : Z) (l : list A) : list A :=
  let len := Z.of_nat (length l) in
  let k := if (begin_ <? 0)%Z then Z.max (len + begin_) 0
           else Z.min begin_ len in
  drop (Z.to_nat k) l.

Record options := {
  opt_path : option string;
  opt_pattern : option (string -> bool);
  opt_modelName : option string;
  opt_tableName : option string;
  opt_schema : option string;
}.

Definition or_default (o : option string) (d : string) : string :=
  match o with
  | Some s => if truthy (JStr s) then s else d
  | None => d
  end.

(** The constructor; it also sets [migrationFiles_] and [searchPath_]
    to [null] (see [constructed]). *)
Definition constructor (o : options) : outcome migrator :=
  match opt_path o with
  | Some p =>
      if truthy (JStr p) then
        Ok {| migrationFilePath_ := p;
              migrationFilePattern_ := default kDefaults_pattern (opt_pattern o);
              modelName_ := or_default (opt_modelName o) kDefaults_modelName;
              tableName_ := or_default (opt_tableName o) kDefaults_tableName;
              schema_ := or_default (opt_schema o) "public" |}
      else Throw (Error "options.path argument is required")
  | None => Throw (Error "options.path argument is required")
  end.

(** The constructor's assignments to the mutable instance fields. *)
Definition constructed (w : world) : world :=
  set_searchPath_ None (set_migrationFiles_ None w).

Definition getTableName (this : migrator) : string :=
  schema_ this ++ "." ++ tableName_ this.

Definition read_migrationFiles_ : M (option (list string)) :=
  fun w => (Ok (migrationFiles_ w), w).
Definition read_searchPath_ : M (option string) :=
  fun w => (Ok (searchPath_ w), w).
Definition write_searchPath_ (p : option string) : M unit :=
  fun w => (Ok tt, set_searchPath_ p w).

(** [migrationFiles()].  An array, even an empty one, is truthy.
    Nothing assigns [this.migrationFiles_]. *)
Definition migrationFiles (this : migrator) : M (list string) :=
  let* cached := read_migrationFiles_ in
  match cached with
  | Some files => ret files
  | None =>
      let* files := readdir (migrationFilePath_ this) in
      ret (sort (filter (λ x, migrationFilePattern_ this x = true) files))
  end.

Definition executed (this : migrator) (optTransaction : option transaction)
  : M (list instance) :=
  findAll optTransaction.

Definition ensureTableExists_ (this : migrator) : M unit := sync.

Definition lockTable_ (this : migrator) (t : transaction) : M unit :=
  query_lock_table
    ("LOCK TABLE " ++ getTableName this ++ " IN ACCESS EXCLUSIVE MODE") t.

Definition savePoint_ (this : migrator) (t : transaction) : M unit :=
  query_savepoint ("SAVEPOINT " ++ kSavePointName) t.

Definition releaseSavePoint_ (this : migrator) (t : transaction) : M unit :=
  query_release_savepoint ("RELEASE SAVEPOINT " ++ kSavePointName) t.

Definition rollbackToSavePoint_ (this : migrator) (t : transaction)
  : M unit :=
  query_rollback_to_savepoint
    ("ROLLBACK TO SAVEPOINT " ++ kSavePointName) t.

Definition saveSearchPath_ (this : migrator) (t : transaction) : M unit :=
  let* result := query_show_search_path t in
  write_searchPath_ (Some result).

Definition setSearchPath_ (this : migrator) (searchPath : option string)
    (t : transaction) : M unit :=
  match searchPath with
  | Some p => if truthy (JStr p) then query_set_search_path p t else ret tt
  | None => ret tt
  end.

(** [sql] as a JavaScript value, [null] for an absent section. *)
Definition of_section (sql : option string) : jsval :=
  match sql with
  | Some s => JStr s
  | None => JNull
  end.

End Common.

Export Common.

Module Migrator.

(** [recentlyExecuted(optAmount = 1, optTransaction = null)] *)
Definition recentlyExecuted (this : migrator) (optAmount : option Z)
    (optTransaction : option transaction) : M (list instance) :=
  let amount := Z.max 1 (default 1%Z optAmount) in
  let* executedMigrations := executed this optTransaction in
  ret (slice (- amount) executedMigrations).

Definition pending (this : migrator) (optTransaction : option transaction)
  : M (list instance) :=
  let* both := promise_all2 (migrationFiles this)
                            (executed this optTransaction) in
  let '(migrationFiles, executedMigrations) := both in
  let executedFileNames := inst_name <$> executedMigrations in
  let pendingMigrationFileNames :=
    sort (difference migrationFiles executedFileNames) in
  let pendingMigrations := build <$> pendingMigrationFileNames in
  ret pendingMigrations.

Definition parseMigration_ (this : migrator) (migrationFileName : string)
  : M payload :=
  let* sql := readFile (migrationFilePath_ this) migrationFileName in
  lift (migrationSqlParse (JStr sql) JUndefined).

(** The body of the [for ... of] loop of [migrationsUp_]. *)
Definition migrationUp_ (this : migrator) (migration : instance)
    (t : transaction) : M unit :=
  let* migrationSql := parseMigration_ this (inst_name migration) in
  let sql := SqlParse.up migrationSql in
  if negb (truthy (JStr sql)) then
    throw (Error ("cannot run migration, " ++ inst_name migration
                  ++ ": missing 'up' SQL"))
  else
    let* _ := savePoint_ this t in
    let* _ := try_catch (query sql t)
                (fun error =>
                   let* _ := rollbackToSavePoint_ this t in
                   let* _ := commit in
                   throw error) in
    let* _ := releaseSavePoint_ this t in
    save migration t.

Fixpoint for_of {A} (l : list A) (body : A -> M unit) : M unit :=
  match l with
  | [] => ret tt
  | x :: l' => let* _ := body x in for_of l' body
  end.

Definition migrationsUp_ (this : migrator) (migrations : list instance)
    (t : transaction) : M (list instance) :=
  let* _ := for_of migrations (fun migration =>
              migrationUp_ this migration t) in
  ret migrations.

Definition migrationDown_ (this : migrator) (migration : instance)
    (t : transaction) : M unit :=
  let* migrationSql := parseMigration_ this (inst_name migration) in
  let sql := SqlParse.down migrationSql in
  if negb (truthy (of_section sql)) then
    throw (Error ("cannot run migration, " ++ inst_name migration
                  ++ ": missing 'down' SQL"))
  else
    let* _ := savePoint_ this t in
    let* _ := try_catch (query (ToString (of_section sql)) t)
                (fun error =>
                   let* _ := rollbackToSavePoint_ this t in
                   let* _ := commit in
                   throw error) in
    let* _ := releaseSavePoint_ this t in
    destroy migration t.

Definition migrationsDown_ (this : migrator) (migrations : list instance)
    (t : transaction) : M (list instance) :=
  let* _ := for_of migrations (fun migration =>
              migrationDown_ this migration t) in
  ret migrations.

(** [up()]; the result [None] is JavaScript's [null]. *)
Definition up (this : migrator) : M (option (list string)) :=
  let* _ := ensureTableExists_ this in
  sequelize_transaction (fun transaction =>
    let* _ := lockTable_ this transaction in
    let* pendingMigrations := pending this (Some transaction) in
    let numPending := length pendingMigrations in
    if (numPending =? 0)%nat then ret None
    else
      try_catch
        (let* _ := saveSearchPath_ this transaction in
         let* _ := setSearchPath_ this (Some (schema_ this)) transaction in
         let* migrations :=
           migrationsUp_ this pendingMigrations transaction in
         let* searchPath := read_searchPath_ in
         let* _ := setSearchPath_ this searchPath transaction in
         let* _ := write_searchPath_ None in
         ret (Some (inst_name <$> migrations)))
        (fun error => throw error)).

(** [down(optAmount = 1)] *)
Definition down (this : migrator) (optAmount : option Z)
  : M (option (list string)) :=
  let* _ := ensureTableExists_ this in
  sequelize_transaction (fun transaction =>
    let* _ := lockTable_ this transaction in
    let* migrationsToUndo :=
      recentlyExecuted this (Some (default 1%Z optAmount))
                       (Some transaction) in
    let numToUndo := length migrationsToUndo in
    if (numToUndo =? 0)%nat then ret None
    else
      let migrationsToUndo := reverse migrationsToUndo in
      try_catch
        (let* _ := saveSearchPath_ this transaction in
         let* migrations :=
           migrationsDown_ this migrationsToUndo transaction in
         let* searchPath := read_searchPath_ in
         let* _ := setSearchPath_ this searchPath transaction in
         let* _ := write_searchPath_ None in
         ret (Some (inst_name <$> migrations)))
        (fun error => throw error)).

End Migrator.

(** ** The promise-chain Migrator

    The second Migrator file has the same header as [Migrator.js]: it
    requires [assert], [fs], [path] and the splitter, and nothing else.  Its
    methods call [Promise.each] and [.spread], which Bluebird provides and
    the built-in [Promise] does not, and [parseMigration_] calls a bare
    [readFile], which nothing declares.  Which [Promise] the global name
    denotes is a parameter. *)

Inductive promise_impl := Native | Bluebird.

Module PromiseChain.
Section WithPromise.

Variable Promise : promise_impl.

Definition recentlyExecuted (this : migrator) (optAmount : option Z)
    (optTransaction : option transaction) : M (list instance) :=
  let amount := Z.max 1 (default 1%Z optAmount) in
  let* executedMigrations := executed this optTransaction in
  ret (slice (- amount) executedMigrations).

(** [Promise.all([...]).spread(...)]: the array is built first, which
    starts both calls; without [spread] the method call then throws and
    the two promises are dropped. *)
Definition pending (this : migrator) (optTransaction : option transaction)
  : M (list instance) :=
  match Promise with
  | Native => fun w =>
      let '(_, w') := promise_all2 (migrationFiles this)
                                   (executed this optTransaction) w in
      (Throw (TypeError "Promise.all(...).spread is not a function"), w')
  | Bluebird =>
      let* both := promise_all2 (migrationFiles this)
                                (executed this optTransaction) in
      let '(migrationFiles, executedMigrations) := both in
      let executedFileNames := inst_name <$> executedMigrations in
      let pendingMigrationFileNames :=
        sort (difference migrationFiles executedFileNames) in
      let pendingMigrations := build <$> pendingMigrationFileNames in
      ret pendingMigrations
  end.

(** The executor calls [readFile], an undeclared name: it throws before
    anything is read and the promise rejects. *)
Definition parseMigration_ (this : migrator) (migrationFileName : string)
  : M payload :=
  let migrationFile := resolve (migrationFilePath_ this) migrationFileName in
  let* sql := throw (A := string)
                (ReferenceError "readFile is not defined") in
  lift (migrationSqlParse (JStr sql) JUndefined).

(** [Promise.each(l, body)] *)
Definition Promise_each {A} (l : list A) (body : A -> M unit) : M unit :=
  match Promise with
  | Native => throw (TypeError "Promise.each is not a function")
  | Bluebird => Migrator.for_of l body
  end.

Definition migrationsUp_ (this : migrator) (migrations : list instance)
    (t : transaction) : M (list instance) :=
  let* _ := Promise_each migrations (fun migration =>
    let* _ :=
      (let* migrationSql := parseMigration_ this (inst_name migration) in
       let sql := SqlParse.up migrationSql in
       if negb (truthy (JStr sql)) then
         throw (Error ("cannot run migration, " ++ inst_name migration
                       ++ ": missing 'up' SQL"))
       else
         let* _ := try_catch
                     (let* _ := savePoint_ this t in query sql t)
                     (fun error =>
                        let* _ := rollbackToSavePoint_ this t in
                        let* _ := commit in
                        throw error) in
         releaseSavePoint_ this t) in
    save migration t) in
  ret migrations.

Definition migrationsDown_ (this : migrator) (migrations : list instance)
    (t : transaction) : M (list instance) :=
  let* _ := Promise_each migrations (fun migration =>
    let* _ :=
      (let* migrationSql := parseMigration_ this (inst_name migration) in
       let sql := SqlParse.down migrationSql in
       if negb (truthy (of_section sql)) then
         throw (Error ("cannot run migration, " ++ inst_name migration
                       ++ ": missing 'down' SQL"))
       else
         let* _ := try_catch
                     (let* _ := savePoint_ this t in
                      query (ToString (of_section sql)) t)
                     (fun error =>
                        let* _ := rollbackToSavePoint_ this t in
                        let* _ := commit in
                        throw error) in
         releaseSavePoint_ this t) in
    destroy migration t) in
  ret migrations.

Definition up (this : migrator) : M (option (list string)) :=
  let* _ := ensureTableExists_ this in
  sequelize_transaction (fun transaction =>
    let* _ := lockTable_ this transaction in
    let* pendingMigrations := pending this (Some transaction) in
    let numPending := length pendingMigrations in
    if (numPending =? 0)%nat then ret None
    else
      try_catch
        (let* _ := saveSearchPath_ this transaction in
         let* _ := setSearchPath_ this (Some (schema_ this)) transaction in
         let* migrations :=
           migrationsUp_ this pendingMigrations transaction in
         let* searchPath := read_searchPath_ in
         let* _ := setSearchPath_ this searchPath transaction in
         let* _ := write_searchPath_ None in
         ret (Some (inst_name <$> migrations)))
        (fun error => throw error)).

Definition down (this : migrator) (optAmount : option Z)
  : M (option (list string)) :=
  let* _ := ensureTableExists_ this in
  sequelize_transaction (fun transaction =>
    let* _ := lockTable_ this transaction in
    let* migrationsToUndo :=
      recentlyExecuted this (Some (default 1%Z optAmount))
                       (Some transaction) in
    let numToUndo := length migrationsToUndo in
    if (numToUndo =? 0)%nat then ret None
    else
      let migrationsToUndo := reverse migrationsToUndo in
      try_catch
        (let* _ := saveSearchPath_ this transaction in
         let* migrations :=
           migrationsDown_ this migrationsToUndo transaction in
         let* searchPath := read_searchPath_ in
         let* _ := setSearchPath_ this searchPath transaction in
         let* _ := write_searchPath_ None in
         ret (Some (inst_name <$> migrations)))
        (fun error => throw error)).

End WithPromise.
End PromiseChain.

(** ** Sample configurations

    A Migrator with the default options on [/migrations], a database whose
    session search path is [app, public], and a few directories. *)

Module Sample.

Definition this : migrator :=
  {| migrationFilePath_ := "/migrations";
     migrationFilePattern_ := kDefaults_pattern;
     modelName_ := kDefaults_modelName;
     tableName_ := kDefaults_tableName;
     schema_ := "public" |}.

Definition f1 : string := "20200101000000_0001_users.sql".
Definition f2 : string := "20200102000000_0001_posts.sql".
Definition f3 : string := "20200103000000_0001_tags.sql".

Definition file (up_sql down_sql : string) : option string :=
  Some (up_sql ++ kDefaultDelimiter ++ down_sql).

Definition empty_db : dbstate :=
  {| table := None; serial := 1; applied := [];
     search_path := "app, public" |}.

Definition world_of (d : gmap string (option string))
    (acc : list string -> string -> bool) (s : dbstate) : world :=
  {| dir := Some d; accepts := acc; committed := s; tx := None;
     migrationFiles_ := None; searchPath_ := None; trace := [] |}.

(** Three well-formed migrations and a file the pattern rejects. *)
Definition three : gmap string (option string) :=
  {[ f1 := file "create table users (id serial)" "drop table users";
     f2 := file "create table posts (id serial)" "drop table posts";
     f3 := file "create table tags (id serial)" "drop table tags";
     "README.md" := Some "notes" ]}.

(** The second file starts with the delimiter: its up section is empty. *)
Definition second_without_up : gmap string (option string) :=
  <[ f2 := Some (kDefaultDelimiter ++ "drop table posts") ]> three.

(** The second file cannot be read. *)
Definition second_unreadable : gmap string (option string) :=
  <[ f2 := None ]> three.

(** The first file has no delimiter, hence no down section. *)
Definition first_without_down : gmap string (option string) :=
  <[ f1 := Some "create table users (id serial)" ]> three.

Definition accept_all : list string -> string -> bool := fun _ _ => true.

(** A database that refuses every statement mentioning [posts]. *)
Definition refuse_posts : list string -> string -> bool :=
  fun _ sql => negb (bool_decide (is_Some (index_of "posts" sql))).

(** A database that refuses to drop [posts]. *)
Definition refuse_drop_posts : list string -> string -> bool :=
  fun _ sql =>
    negb (bool_decide (is_Some (index_of "drop table posts" sql))).

(** The database after the three migrations have been applied. *)
Definition migrated_db : dbstate :=
  {| table := Some [(1, f1); (2, f2); (3, f3)]; serial := 4;
     applied := ["create table users (id serial)";
                 "create table posts (id serial)";
                 "create table tags (id serial)"];
     search_path := "app, public" |}.

Definition run {A} (m : M A) (w : world) : world := snd (m w).

End Sample.

(** ** Vocabulary of the statements *)

(** The rows of the ledger table; none while the table does not exist. *)
Definition ledger (s : dbstate) : list (nat * string) := default [] (table s).

(** What [migrationFiles] fulfils with on a directory [d]. *)
Definition listing (this : migrator) (d : gmap string (option string))
  : list string :=
  sort (filter (λ x, migrationFilePattern_ this x = true) (map_to_list d).*1).

(** The names [pending] selects on a directory [d] and a database [s]. *)
Definition pending_names (this : migrator) (d : gmap string (option string))
    (s : dbstate) : list string :=
  sort (difference (listing this d) (order_by_id (ledger s)).*2).

(** The statement [setSearchPath_] sends, if any. *)
Definition set_path_events (searchPath : string) : list event :=
  if truthy (JStr searchPath)
  then [EvQuery ("set search_path to " ++ searchPath)]
  else [].

(** What [up] and [down] do before they look at their migrations. *)
Definition prelude_events (this : migrator) : list event :=
  [EvSync; EvBegin;
   EvQuery ("LOCK TABLE " ++ getTableName this ++ " IN ACCESS EXCLUSIVE MODE")].

(** A step inside a transaction: the transaction changes, events are
    appended, the rest of the world stays. *)
Definition advance (x : option txn) (evs : list event) (w : world) : world :=
  {| dir := dir w; accepts := accepts w; committed := committed w; tx := x;
     migrationFiles_ := migrationFiles_ w; searchPath_ := searchPath_ w;
     trace := (trace w ++ evs)%list |}.

(** The database once [model.sync()] has run. *)
Definition synced (s : dbstate) : dbstate := set_table (Some (ledger s)) s.

(** The working state after a migration has been applied and recorded. *)
Definition record_up (name sql : string) (s : dbstate) : dbstate :=
  {| table := Some (ledger s ++ [(serial s, name)])%list;
     serial := S (serial s);
     applied := (applied s ++ [sql])%list;
     search_path := search_path s |}.

(** The working state after a migration has been reverted and its row
    deleted. *)
Definition record_down (id : nat) (sql : string) (s : dbstate) : dbstate :=
  {| table := Some (filter (λ r, r.1 ≠ id) (ledger s));
     serial := serial s;
     applied := (applied s ++ [sql])%list;
     search_path := search_path s |}.

(** The events of one migration that goes through, of one whose SQL is
    refused, and of one revert that goes through. *)
Definition up_events (this : migrator) (name sql : string) : list event :=
  [EvReadFile (resolve (migrationFilePath_ this) name);
   EvQuery ("SAVEPOINT " ++ kSavePointName);
   EvQuery sql;
   EvQuery ("RELEASE SAVEPOINT " ++ kSavePointName);
   EvInsert name].

Definition refused_events (this : migrator) (name sql : string)
  : list event :=
  [EvReadFile (resolve (migrationFilePath_ this) name);
   EvQuery ("SAVEPOINT " ++ kSavePointName);
   EvQuery sql;
   EvQuery ("ROLLBACK TO SAVEPOINT " ++ kSavePointName);
   EvCommit].

Definition down_events (this : migrator) (name sql : string) (id : nat)
  : list event :=
  [EvReadFile (resolve (migrationFilePath_ this) name);
   EvQuery ("SAVEPOINT " ++ kSavePointName);
   EvQuery sql;
   EvQuery ("RELEASE SAVEPOINT " ++ kSavePointName);
   EvDelete id].

(** What [migrationFiles] fulfils with in a world, if it does, and the
    event it leaves. *)
Definition files_of (this : migrator) (w : world) : option (list string) :=
  match migrationFiles_ w with
  | Some files => Some files
  | None => listing this <$> dir w
  end.

Definition readdir_events (this : migrator) (w : world) : list event :=
  match migrationFiles_ w with
  | Some _ => []
  | None => [EvReaddir (migrationFilePath_ this)]
  end.

(** A step that leaves the files, the committed database and the rows of
    the working ledger alone, and the transaction open and sound. *)
Definition keeps_ledger (w w' : world) : Prop :=
  dir w' = dir w ∧ migrationFiles_ w' = migrationFiles_ w
  ∧ committed w' = committed w
  ∧ ∀ x, tx w = Some x → failed x = false →
         ∃ x', tx w' = Some x' ∧ failed x' = false
               ∧ table (work x') = table (work x).

(** The string [migrationSqlParse] searches for, by the value passed as
    [optDelimiter]: the default for [undefined], the value itself when it
    is truthy, and otherwise [exports.kDefaultDelimiter] as [indexOf]
    reads it. *)
Definition delimiter_used (optDelimiter : jsval) : string :=
  let optDelimiter :=
    match optDelimiter with
    | JUndefined => JStr kDefaultDelimiter
    | v => v
    end in
  ToString (if truthy optDelimiter then optDelimiter
            else get_prop exports "kDefaultDelimiter").

(** The text handed back by a split: [up] followed by [down], if any. *)
Definition rejoin (p : payload) : string := up p ++ default "" (down p).

(** The up and the down SQL that the runner finds in the file [name] of
    the directory [d]; empty when the file cannot be read or split, or has
    no such section. *)
Definition up_sql (d : gmap string (option string)) (name : string)
  : string :=
  match d !! name with
  | Some (Some text) =>
      match migrationSqlParse (JStr text) JUndefined with
      | Ok p => up p
      | Throw _ => ""
      end
  | _ => ""
  end.

Definition down_sql (d : gmap string (option string)) (name : string)
  : string :=
  match d !! name with
  | Some (Some text) =>
      match migrationSqlParse (JStr text) JUndefined with
      | Ok p => default "" (down p)
      | Throw _ => ""
      end
  | _ => ""
  end.

(** Whether the database executes the statements [sqls] one after the
    other, starting with [hist] in effect. *)
Fixpoint accepts_all (acc : list string -> string -> bool)
    (hist sqls : list string) : bool :=
  match sqls with
  | [] => true
  | sql :: rest => acc hist sql && accepts_all acc (hist ++ [sql])%list rest
  end.

(** The working state after the migrations [names] have been applied and
    recorded in this order, and after the rows [rs] have been reverted and
    deleted in this order. *)
Definition record_ups (d : gmap string (option string))
    (names : list string) (s : dbstate) : dbstate :=
  foldl (λ s name, record_up name (up_sql d name) s) s names.

Definition record_downs (d : gmap string (option string))
    (rs : list (nat * string)) (s : dbstate) : dbstate :=
  foldl (λ s r, record_down r.1 (down_sql d r.2) s) s rs.

Definition ups_events (this : migrator) (d : gmap string (option string))
    (names : list string) : list event :=
  names ≫= λ name, up_events this name (up_sql d name).

Definition downs_events (this : migrator) (d : gmap string (option string))
    (rs : list (nat * string)) : list event :=
  rs ≫= λ r, down_events this r.2 (down_sql d r.2) r.1.

(** The error [migrationsUp_] and [migrationsDown_] reject with at a file
    that gives them no SQL to run: the error of [fs.readFile], the error
    of the splitter, or their own. *)
Definition up_failure (this : migrator) (d : gmap string (option string))
    (name : string) : error :=
  match d !! name with
  | Some (Some text) =>
      match migrationSqlParse (JStr text) JUndefined with
      | Ok _ => Error ("cannot run migration, " ++ name
                       ++ ": missing 'up' SQL")
      | Throw e => e
      end
  | _ => IOError (resolve (migrationFilePath_ this) name)
  end.

Definition down_failure (this : migrator) (d : gmap string (option string))
    (name : string) : error :=
  match d !! name with
  | Some (Some text) =>
      match migrationSqlParse (JStr text) JUndefined with
      | Ok _ => Error ("cannot run migration, " ++ name
                       ++ ": missing 'down' SQL")
      | Throw e => e
      end
  | _ => IOError (resolve (migrationFilePath_ this) name)
  end.

(** * Properties *)

(** ** Facts about strings *)

Section StringFacts.

Lemma append_nil_l (s : string) : "" ++ s = s.
Proof. reflexivity. Qed.

Lemma append_cons (c : ascii) (a b : string) :
  String c a ++ b = String c (a ++ b).
Proof. reflexivity. Qed.

Lemma append_assoc (a b c : string) : a ++ b ++ c = (a ++ b) ++ c.
Proof.
  induction a as [|x a IH]; [done|]. rewrite !append_cons. by rewrite IH.
Qed.

Lemma length_append (a b : string) :
  String.length (a ++ b) = (String.length a + String.length b)%nat.
Proof.
  induction a as [|c a IH]; [done|]. rewrite append_cons. simpl. by rewrite IH.
Qed.

Lemma chars_app (a b : string) :
  list_ascii_of_string (a ++ b)
  = (list_ascii_of_string a ++ list_ascii_of_string b)%list.
Proof.
  induction a as [|c a IH]; [done|]. rewrite append_cons. simpl. by rewrite IH.
Qed.

Lemma prefix_nil (s : string) : String.prefix "" s = true.
Proof. by destruct s. Qed.

Lemma prefix_cons (c c' : ascii) (d s : string) :
  String.prefix (String c d) (String c' s)
  = if decide (c = c') then String.prefix d s else false.
Proof. simpl. destruct (ascii_dec c c'); by case_decide. Qed.

Lemma prefix_app (d s : string) : String.prefix d (d ++ s) = true.
Proof.
  induction d as [|c d IH]; [apply prefix_nil|].
  rewrite append_cons, prefix_cons. by case_decide.
Qed.

Lemma prefix_split (d s : string) :
  String.prefix d s = true → ∃ b, s = d ++ b.
Proof.
  revert s. induction d as [|c d IH]; intros s H.
  - by exists s.
  - destruct s as [|c' s]; [done|].
    rewrite prefix_cons in H. case_decide as E; [subst c'|done].
    destruct (IH _ H) as [b ->]. by exists b.
Qed.

(** Whether [d] starts a string is decided by the first [length d]
    characters. *)
Lemma prefix_app_long (d a b : string) :
  (String.length d ≤ String.length a)%nat →
  String.prefix d (a ++ b) = String.prefix d a.
Proof.
  revert a. induction d as [|c d IH]; intros a Hlen.
  - by rewrite !prefix_nil.
  - destruct a as [|c' a]; simpl in Hlen; [lia|].
    rewrite append_cons, !prefix_cons. case_decide; [apply IH; lia | done].
Qed.

Lemma substring_all (s : string) : substring 0 (String.length s) s = s.
Proof. induction s; simpl; congruence. Qed.

Lemma substring_take_app (a b : string) :
  substring 0 (String.length a) (a ++ b) = a.
Proof.
  induction a as [|c a IH]; [by destruct b|].
  rewrite append_cons. simpl. by rewrite IH.
Qed.

Lemma substring_drop_app (a b : string) :
  substring (String.length a) (String.length (a ++ b) - String.length a)
    (a ++ b) = b.
Proof.
  induction a as [|c a IH].
  - rewrite append_nil_l. simpl. rewrite Nat.sub_0_r. apply substring_all.
  - rewrite append_cons. simpl. apply IH.
Qed.

Lemma index_of_prefix (d s : string) :
  String.prefix d s = true → index_of d s = Some 0.
Proof. intros H. destruct s; cbn [index_of]; by rewrite H. Qed.

(** A position found by [index_of] splits the string around [d]. *)
Lemma index_of_split (d s : string) (p : nat) :
  index_of d s = Some p →
  ∃ a b, s = a ++ d ++ b ∧ String.length a = p.
Proof.
  revert p. induction s as [|c s IH]; intros p; cbn [index_of].
  - destruct (String.prefix d "") eqn:E; [|done].
    intros [= <-]. destruct (prefix_split _ _ E) as [b Hb].
    by exists "", b.
  - destruct (String.prefix d (String c s)) eqn:E.
    + intros [= <-]. destruct (prefix_split _ _ E) as [b Hb].
      by exists "", b.
    + destruct (index_of d s) as [q|]; [|done].
      intros [= <-]. destruct (IH q eq_refl) as (a & b & -> & <-).
      by exists (String c a), b.
Qed.

(** An occurrence of [d] is found at or before where one is known. *)
Lemma index_of_bound (d a b : string) :
  ∃ q, index_of d (a ++ d ++ b) = Some q ∧ (q ≤ String.length a)%nat.
Proof.
  induction a as [|c a (q & Hq & Hle)].
  - exists 0. rewrite append_nil_l. split; [|done].
    apply index_of_prefix, prefix_app.
  - rewrite append_cons. cbn [index_of].
    destruct (String.prefix d (String c (a ++ d ++ b))).
    + exists 0. split; [done | lia].
    + exists (S q). rewrite Hq. split; [done | simpl; lia].
Qed.

(** What follows the first occurrence does not move it. *)
Lemma index_of_app_first (d s1 s2 : string) :
  index_of d (s1 ++ d) = Some (String.length s1) →
  index_of d (s1 ++ d ++ s2) = Some (String.length s1).
Proof.
  induction s1 as [|c s1 IH]; intros H.
  - rewrite append_nil_l. apply index_of_prefix, prefix_app.
  - rewrite append_cons in *. cbn [index_of] in *.
    destruct (String.prefix d (String c (s1 ++ d))) eqn:E; [done|].
    assert (String.prefix d (String c (s1 ++ d ++ s2)) = false) as ->.
    { rewrite <- E, <- !append_cons, (append_assoc (String c s1) d s2).
      apply prefix_app_long. rewrite length_append. lia. }
    destruct (index_of d (s1 ++ d)) as [q|] eqn:Eq; [|done].
    injection H as ->. by rewrite IH.
Qed.

Lemma truthy_nonempty (s : string) : s ≠ "" → truthy (JStr s) = true.
Proof. intros H. simpl. by apply negb_true_iff, String.eqb_neq. Qed.

End StringFacts.

(** ** The splitter *)

Section Splitter.

Lemma kDefaultDelimiter_truthy : truthy (JStr kDefaultDelimiter) = true.
Proof. reflexivity. Qed.

(** Splitting at a position known to be the first occurrence. *)
Lemma split_at (sql d a b : string) :
  sql = a ++ d ++ b →
  index_of d sql = Some (String.length a) →
  (if (0 <=? indexOf sql d)%Z then
     Ok {| up := substr sql 0 (indexOf sql d);
           down := Some (substr_from sql (indexOf sql d)) |}
   else Ok {| up := sql; down := None |})
  = Ok {| up := a; down := Some (d ++ b) |}.
Proof.
  intros -> Hi. unfold indexOf. rewrite Hi.
  destruct (Z.leb_spec 0 (Z.of_nat (String.length a))); [|lia].
  unfold substr, substr_from. rewrite Nat2Z.id.
  by rewrite substring_take_app, substring_drop_app.
Qed.

(** An explicit non-empty delimiter is the one searched for. *)
Lemma parse_with (sql d : string) :
  sql ≠ "" → d ≠ "" →
  migrationSqlParse (JStr sql) (JStr d)
  = if (0 <=? indexOf sql d)%Z then
      Ok {| up := substr sql 0 (indexOf sql d);
            down := Some (substr_from sql (indexOf sql d)) |}
    else Ok {| up := sql; down := None |}.
Proof.
  intros Hs Hd. unfold migrationSqlParse.
  rewrite (truthy_nonempty sql Hs), (truthy_nonempty d Hd). done.
Qed.

(** Left out, the delimiter is [kDefaultDelimiter]. *)
Lemma parse_default (sql : string) :
  migrationSqlParse (JStr sql) JUndefined
  = migrationSqlParse (JStr sql) (JStr kDefaultDelimiter).
Proof. reflexivity. Qed.

Lemma app_nonempty_r (a d b : string) : d ≠ "" → a ++ d ++ b ≠ "".
Proof.
  intros Hd E. apply (f_equal String.length) in E.
  rewrite !length_append in E. destruct d; [done | simpl in E; lia].
Qed.

(** A whitespace-only string does not contain the default delimiter,
    which has a dash. *)
Lemma whitespace_no_delimiter (s : string) :
  whitespace_only s = true → index_of kDefaultDelimiter s = None.
Proof.
  intros Hw. destruct (index_of kDefaultDelimiter s) as [p|] eqn:E; [|done].
  destruct (index_of_split _ _ _ E) as (a & b & -> & _).
  unfold whitespace_only in Hw.
  rewrite !chars_app, !forallb_app in Hw.
  apply andb_true_iff in Hw as [_ Hw]. apply andb_true_iff in Hw as [Hw _].
  by vm_compute in Hw.
Qed.

(** A file with a down section yields a non-empty down SQL. *)
Lemma parse_down_section (sql : string) (p : nat) :
  index_of kDefaultDelimiter sql = Some p →
  ∃ a b, sql = a ++ kDefaultDelimiter ++ b ∧
    migrationSqlParse (JStr sql) JUndefined
    = Ok {| up := a; down := Some (kDefaultDelimiter ++ b) |}.
Proof.
  intros E. destruct (index_of_split _ _ _ E) as (a & b & Hs & Hp).
  exists a, b. split; [done|].
  rewrite parse_default, parse_with; [| subst; by apply app_nonempty_r | done].
  apply split_at; [done | by rewrite Hp].
Qed.

(** The delimiter joined after [s1] is found there when nothing
    earlier matches. *)
Lemma split_at_join (s1 s2 d : string) :
  d ≠ "" →
  indexOf (s1 ++ d) d = Z.of_nat (String.length s1) →
  migrationSqlParse (JStr (s1 ++ d ++ s2)) (JStr d)
  = Ok {| up := s1; down := Some (d ++ s2) |}.
Proof.
  intros Hd Hi.
  rewrite parse_with; [| by apply app_nonempty_r | done].
  apply split_at; [done|]. apply index_of_app_first.
  unfold indexOf in Hi. destruct (index_of d (s1 ++ d)); [|lia].
  f_equal. lia.
Qed.

End Splitter.

(** C7, as stated, fails: [s1] need not contain the delimiter for an
    occurrence to start inside it.  Here [s1] is the delimiter without
    its final newline; the newline that opens the delimiter proper
    completes an occurrence at position 0. *)
Lemma split_joined_counterexample :
  let s1 := nl ++ "-- MIGRATION DOWN SQL" in
  let d := kDefaultDelimiter in
  let s2 := "drop table names" in
  indexOf s1 d = (-1)%Z ∧
  migrationSqlParse (JStr (s1 ++ d ++ s2)) (JStr d)
  = Ok {| up := ""; down := Some (s1 ++ d ++ s2) |} ∧
  migrationSqlParse (JStr (s1 ++ d ++ s2)) (JStr d)
  ≠ Ok {| up := s1; down := Some (d ++ s2) |}.
Proof. vm_compute. split_and!; [reflexivity | reflexivity | discriminate]. Qed.

(** C7 (amended): for all strings [s1], [s2] and every non-empty delimiter
    [d], if the first occurrence of [d] in [s1 + d] is at the end of [s1]
    (so [d] starts nowhere inside [s1], not even overlapping the joined
    delimiter), then [split(s1 + d + s2, d)] returns
    [{up: s1, down: d + s2}]. *)
Theorem split_joined (s1 s2 d : string) :
  d ≠ "" →
  indexOf (s1 ++ d) d = Z.of_nat (String.length s1) →
  migrationSqlParse (JStr (s1 ++ d ++ s2)) (JStr d)
  = Ok {| up := s1; down := Some (d ++ s2) |}.
Proof. apply split_at_join. Qed.

Lemma split_joined_witness :
  migrationSqlParse
    (JStr ("create table names (id serial)" ++ kDefaultDelimiter
           ++ "drop table names"))
    (JStr kDefaultDelimiter)
  = Ok {| up := "create table names (id serial)";
          down := Some (kDefaultDelimiter ++ "drop table names") |}.
Proof. apply split_joined; [discriminate | reflexivity]. Defined.

(** The amended condition is stronger than the stated one: it implies
    that [s1] does not contain [d]. *)
Lemma first_at_end_not_inside (s1 d : string) :
  d ≠ "" →
  indexOf (s1 ++ d) d = Z.of_nat (String.length s1) →
  indexOf s1 d = (-1)%Z.
Proof.
  intros Hd Hi. unfold indexOf in *.
  destruct (index_of d s1) as [p|] eqn:E; [exfalso|done].
  destruct (index_of_split _ _ _ E) as (a & b & -> & _).
  destruct (index_of_bound d a (b ++ d)) as (q & Hq & Hle).
  rewrite <- !append_assoc in Hi. rewrite Hq in Hi.
  rewrite !length_append in Hi. destruct d; [done | simpl in Hi; lia].
Qed.

(** With a delimiter no proper suffix of which is also a prefix, the
    stated condition is enough. *)
Lemma split_joined_single_char (s1 s2 : string) (c : ascii) :
  indexOf s1 (String c "") = (-1)%Z →
  migrationSqlParse (JStr (s1 ++ String c "" ++ s2)) (JStr (String c ""))
  = Ok {| up := s1; down := Some (String c "" ++ s2) |}.
Proof.
  intros Hi. apply split_at_join; [done|].
  unfold indexOf in *. induction s1 as [|x s1 IH].
  - rewrite append_nil_l. cbn [index_of]. rewrite prefix_cons.
    case_decide; [|done]. by rewrite prefix_nil.
  - rewrite append_cons. cbn [index_of] in *. rewrite prefix_cons in *.
    case_decide.
    + rewrite prefix_nil in Hi. done.
    + destruct (index_of (String c "") s1); [simpl in Hi; lia|].
      specialize (IH eq_refl).
      destruct (index_of (String c "") (s1 ++ String c "")); [|lia].
      simpl. simpl in IH. lia.
Qed.

(** C8, as stated, fails on the empty string, which the first guard of the
    function rejects. *)
Lemma split_empty_counterexample :
  whitespace_only "" = true ∧
  migrationSqlParse (JStr "") JUndefined
  = Throw (Error "Missing / empty migration SQL argument") ∧
  migrationSqlParse (JStr "") JUndefined ≠ Ok {| up := ""; down := None |}.
Proof. split_and!; [reflexivity | reflexivity | discriminate]. Qed.

(** C8 (amended): for every non-empty whitespace-only string, [split]
    succeeds and returns [{up: input, down: null}]. *)
Theorem split_whitespace (s : string) :
  s ≠ "" →
  whitespace_only s = true →
  migrationSqlParse (JStr s) JUndefined = Ok {| up := s; down := None |}.
Proof.
  intros Hs Hw. rewrite parse_default, parse_with; [|done..].
  unfold indexOf. by rewrite whitespace_no_delimiter.
Qed.

Lemma split_whitespace_witness :
  migrationSqlParse (JStr " ") JUndefined = Ok {| up := " "; down := None |}.
Proof. apply split_whitespace; [discriminate | reflexivity]. Defined.

(** C10: for every non-empty [text], [split(text, "")] searches for the
    string [undefined]: [exports.kDefaultDelimiter] is an absent property,
    and [indexOf] turns [undefined] into that string.  The text is split
    at the first occurrence of [undefined] if there is one, and is
    returned whole as [up] otherwise; the default delimiter plays no
    part. *)
Theorem split_empty_delimiter (text : string) :
  text ≠ "" →
  migrationSqlParse (JStr text) (JStr "")
  = migrationSqlParse (JStr text) (JStr "undefined")
  ∧ (index_of "undefined" text = None →
     migrationSqlParse (JStr text) (JStr "") = Ok {| up := text; down := None |})
  ∧ (∀ a b, text = a ++ "undefined" ++ b →
     index_of "undefined" text = Some (String.length a) →
     migrationSqlParse (JStr text) (JStr "")
     = Ok {| up := a; down := Some ("undefined" ++ b) |}).
Proof.
  intros Ht.
  assert (migrationSqlParse (JStr text) (JStr "")
          = migrationSqlParse (JStr text) (JStr "undefined")) as E.
  { unfold migrationSqlParse. by rewrite (truthy_nonempty text Ht). }
  rewrite E, parse_with; [|done..]. split_and!; [done | |].
  - intros Hn. unfold indexOf. by rewrite Hn.
  - intros a b Hab Hi. by apply split_at.
Qed.

Lemma split_empty_delimiter_witness :
  let text := "select 1" ++ kDefaultDelimiter ++ "select undefined" in
  migrationSqlParse (JStr text) (JStr "")
  = Ok {| up := "select 1" ++ kDefaultDelimiter ++ "select ";
          down := Some "undefined" |}.
Proof.
  intros text.
  assert (text ≠ "") as Ht by discriminate.
  destruct (split_empty_delimiter text Ht) as (_ & _ & H).
  apply (H ("select 1" ++ kDefaultDelimiter ++ "select ") "");
    reflexivity.
Defined.

(** ** The monad and the collaborators, step by step *)

Section Steps.

Context {A B : Type}.

Lemma bind_ok (m : M A) (k : A → M B) w a w1 :
  m w = (Ok a, w1) → bind m k w = k a w1.
Proof. unfold bind. by intros ->. Qed.

Lemma bind_throw (m : M A) (k : A → M B) w e w1 :
  m w = (Throw e, w1) → bind m k w = (Throw e, w1).
Proof. unfold bind. by intros ->. Qed.

Lemma bind_ok_inv (m : M A) (k : A → M B) w b w' :
  bind m k w = (Ok b, w') →
  ∃ a w1, m w = (Ok a, w1) ∧ k a w1 = (Ok b, w').
Proof.
  unfold bind. destruct (m w) as [[a|e] w1]; [eauto | done].
Qed.

Lemma try_ok (m : M A) (h : error → M A) w a w1 :
  m w = (Ok a, w1) → try_catch m h w = (Ok a, w1).
Proof. unfold try_catch. by intros ->. Qed.

Lemma try_throw (m : M A) (h : error → M A) w e w1 :
  m w = (Throw e, w1) → try_catch m h w = h e w1.
Proof. unfold try_catch. by intros ->. Qed.

Lemma try_ok_inv (m : M A) (h : error → M A) w a w' :
  try_catch m h w = (Ok a, w') →
  m w = (Ok a, w') ∨ ∃ e w1, m w = (Throw e, w1) ∧ h e w1 = (Ok a, w').
Proof.
  unfold try_catch. destruct (m w) as [[a'|e] w1]; [by left | eauto].
Qed.

(** A handler that ends in [throw] never fulfils. *)
Lemma rethrow_not_ok (m1 m2 : M unit) (e : error) w (a : A) w' :
  bind m1 (fun _ => bind m2 (fun _ => throw e)) w ≠ (Ok a, w').
Proof.
  unfold bind, throw. destruct (m1 w) as [[?|?] w1]; [|done].
  by destruct (m2 w1) as [[?|?] w2].
Qed.

End Steps.

Section Worlds.

Lemma advance_advance x1 e1 x2 e2 w :
  advance x2 e2 (advance x1 e1 w) = advance x2 (e1 ++ e2)%list w.
Proof. unfold advance. cbn. by rewrite (assoc_L (++)). Qed.

Lemma set_work_id (x : txn) : set_work (work x) x = x.
Proof. by destruct x. Qed.

Lemma table_synced s : table (synced s) = Some (ledger s).
Proof. done. Qed.

Lemma sync_run w :
  sync w = (Ok tt, set_committed (synced (committed w)) (log EvSync w)).
Proof.
  unfold sync, autocommit, synced, ledger. cbn.
  destruct (committed w) as [[rows|] ? ? ?]; done.
Qed.

Lemma in_txn_ok {A} ev (f : txn → outcome (A * txn)) w x a x' :
  tx w = Some x → failed x = false → f x = Ok (a, x') →
  in_txn ev f w = (Ok a, advance (Some x') [ev] w).
Proof. unfold in_txn. cbn. by intros -> -> ->. Qed.

Lemma in_txn_throw {A} ev (f : txn → outcome (A * txn)) w x e :
  tx w = Some x → failed x = false → f x = Throw e →
  in_txn ev f w = (Throw e, advance (Some (set_failed true x)) [ev] w).
Proof. unfold in_txn. cbn. by intros -> -> ->. Qed.

Lemma in_txn_ok_inv {A} ev (f : txn → outcome (A * txn)) w a w' :
  in_txn ev f w = (Ok a, w') →
  ∃ x x', tx w = Some x ∧ failed x = false ∧ f x = Ok (a, x')
          ∧ w' = advance (Some x') [ev] w.
Proof.
  unfold in_txn. cbn. destruct (tx w) as [x|]; [|done].
  destruct (failed x) eqn:Hf; [done|].
  destruct (f x) as [[a' x']|] eqn:Hx; [|done].
  intros [= -> <-]. by exists x, x'.
Qed.

Lemma commit_ok w x :
  tx w = Some x → failed x = false →
  commit w = (Ok tt, set_committed (work x) (advance None [EvCommit] w)).
Proof. unfold commit. by intros -> ->. Qed.

Lemma commit_ok_inv w w' :
  commit w = (Ok tt, w') →
  ∃ x, tx w = Some x ∧
    w' = set_committed
           (if failed x then restore (committed w) (work x) else work x)
           (advance None [EvCommit] w).
Proof.
  unfold commit. destruct (tx w) as [x|]; [|done].
  intros [= <-]. by exists x.
Qed.

Lemma transaction_begin {A} (cb : transaction → M A) w :
  tx w = None →
  sequelize_transaction cb w
  = try_catch
      (bind (cb Transaction) (fun result => bind commit (fun _ => ret result)))
      (fun err w' =>
         match tx w' with
         | Some _ => (Throw err, snd (rollback w'))
         | None => (Throw err, w')
         end)
      (advance (Some (fresh_txn (committed w))) [EvBegin] w).
Proof. unfold sequelize_transaction. by intros ->. Qed.

Lemma transaction_ok_inv {A} (cb : transaction → M A) w a w' :
  sequelize_transaction cb w = (Ok a, w') →
  tx w = None ∧
  ∃ w1 x, cb Transaction
            (advance (Some (fresh_txn (committed w))) [EvBegin] w)
          = (Ok a, w1)
        ∧ tx w1 = Some x
        ∧ w' = set_committed
                 (if failed x then restore (committed w1) (work x)
                  else work x)
                 (advance None [EvCommit] w1).
Proof.
  unfold sequelize_transaction. destruct (tx w) eqn:Htx; [done|].
  intros H. split; [done|].
  apply try_ok_inv in H as [H | (e & w1 & _ & H)].
  - apply bind_ok_inv in H as (r & w1 & Hcb & H).
    apply bind_ok_inv in H as ([] & w2 & Hc & [= -> ->]).
    apply commit_ok_inv in Hc as (x & Hx & ->). by exists w1, x.
  - by destruct (tx w1).
Qed.

End Worlds.

(** ** The runner's statements, one by one *)

Local Open Scope list_scope.

Section Statements.

Variable this : migrator.
Variable t : transaction.

Lemma names_of_instances (rows : list (nat * string)) :
  inst_name <$> (to_instance <$> rows) = rows.*2.
Proof. rewrite <- list_fmap_compose. by apply list_fmap_ext. Qed.

Lemma set_serial_id (s : dbstate) : set_serial (serial s) s = s.
Proof. by destruct s. Qed.

Lemma lockTable_ok w x rows :
  tx w = Some x → failed x = false → table (work x) = Some rows →
  lockTable_ this t w
  = (Ok tt,
     advance (Some (set_locked true x))
       [EvQuery ("LOCK TABLE " +:+ getTableName this
                 +:+ " IN ACCESS EXCLUSIVE MODE")] w).
Proof.
  intros Hx Hf Ht. unfold lockTable_, query_lock_table.
  eapply in_txn_ok; [done..|]. by rewrite Ht.
Qed.

Lemma findAll_ok w x rows :
  tx w = Some x → failed x = false → table (work x) = Some rows →
  findAll (Some t) w
  = (Ok (to_instance <$> order_by_id rows), advance (Some x) [EvFindAll] w).
Proof.
  intros Hx Hf Ht. unfold findAll, statement.
  erewrite in_txn_ok; [| done..|]; last first.
  { unfold on_work. rewrite Ht. reflexivity. }
  by rewrite set_work_id.
Qed.

Lemma saveSearchPath_ok w x :
  tx w = Some x → failed x = false →
  saveSearchPath_ this t w
  = (Ok tt,
     set_searchPath_ (Some (search_path (work x)))
       (advance (Some x) [EvQuery "SHOW search_path"] w)).
Proof.
  intros Hx Hf. unfold saveSearchPath_, query_show_search_path, statement.
  erewrite bind_ok; [| eapply in_txn_ok; [done..|reflexivity]].
  by rewrite set_work_id.
Qed.

Lemma setSearchPath_ok w x p :
  tx w = Some x → failed x = false → truthy (JStr p) = true →
  setSearchPath_ this (Some p) t w
  = (Ok tt,
     advance (Some (set_work (set_search_path p (work x)) x))
       (set_path_events p) w).
Proof.
  intros Hx Hf Hp. unfold setSearchPath_, set_path_events. rewrite Hp.
  unfold query_set_search_path, statement.
  eapply in_txn_ok; [done..|reflexivity].
Qed.

Lemma setSearchPath_skip w p :
  truthy (JStr p) = false → setSearchPath_ this (Some p) t w = (Ok tt, w).
Proof. intros Hp. unfold setSearchPath_. by rewrite Hp. Qed.

Lemma savePoint_ok w x :
  tx w = Some x → failed x = false →
  savePoint_ this t w
  = (Ok tt,
     advance (Some (set_savepoint (Some (work x)) x))
       [EvQuery ("SAVEPOINT " +:+ kSavePointName)] w).
Proof.
  intros Hx Hf. unfold savePoint_, query_savepoint.
  eapply in_txn_ok; [done..|reflexivity].
Qed.

Lemma releaseSavePoint_ok w x p :
  tx w = Some x → failed x = false → savepoint x = Some p →
  releaseSavePoint_ this t w
  = (Ok tt,
     advance (Some (set_savepoint None x))
       [EvQuery ("RELEASE SAVEPOINT " +:+ kSavePointName)] w).
Proof.
  intros Hx Hf Hp. unfold releaseSavePoint_, query_release_savepoint.
  eapply in_txn_ok; [done..|]. by rewrite Hp.
Qed.

Lemma rollbackToSavePoint_ok w x p :
  tx w = Some x → savepoint x = Some p →
  rollbackToSavePoint_ this t w
  = (Ok tt,
     advance (Some (set_failed false (set_work (restore p (work x)) x)))
       [EvQuery ("ROLLBACK TO SAVEPOINT " +:+ kSavePointName)] w).
Proof.
  intros Hx Hp. unfold rollbackToSavePoint_, query_rollback_to_savepoint.
  cbn. by rewrite Hx, Hp.
Qed.

Lemma query_ok w x sql :
  tx w = Some x → failed x = false →
  accepts w (applied (work x)) sql = true →
  query sql t w
  = (Ok tt,
     advance (Some (set_work (set_applied (applied (work x) ++ [sql])
                                (work x)) x))
       [EvQuery sql] w).
Proof.
  intros Hx Hf Ha. unfold query, statement.
  eapply in_txn_ok; [done..|]. unfold on_work. by rewrite Ha.
Qed.

Lemma query_refused w x sql :
  tx w = Some x → failed x = false →
  accepts w (applied (work x)) sql = false →
  query sql t w
  = (Throw (DatabaseError sql),
     advance (Some (set_failed true x)) [EvQuery sql] w).
Proof.
  intros Hx Hf Ha. unfold query, statement.
  eapply in_txn_throw; [done..|]. unfold on_work. by rewrite Ha.
Qed.

Lemma save_ok w x rows name :
  tx w = Some x → failed x = false → table (work x) = Some rows →
  name ∉ rows.*2 →
  save (build name) t w
  = (Ok tt,
     advance
       (Some (set_work
                (set_serial (S (serial (work x)))
                   (set_table (Some (rows ++ [(serial (work x), name)]))
                      (work x))) x))
       [EvInsert name] w).
Proof.
  intros Hx Hf Ht Hn. unfold save, statement.
  eapply in_txn_ok; [done..|]. unfold on_work. cbn. rewrite Ht.
  by rewrite decide_False.
Qed.

Lemma destroy_ok w x rows id name :
  tx w = Some x → failed x = false → table (work x) = Some rows →
  destroy {| inst_id := Some id; inst_name := name |} t w
  = (Ok tt,
     advance
       (Some (set_work
                (set_table (Some (filter (λ r, r.1 ≠ id) rows)) (work x)) x))
       [EvDelete id] w).
Proof.
  intros Hx Hf Ht. unfold destroy, statement. cbn.
  eapply in_txn_ok; [done..|]. unfold on_work. by rewrite Ht.
Qed.

Lemma readFile_ok w d name sql :
  dir w = Some d → d !! name = Some (Some sql) →
  readFile (migrationFilePath_ this) name w
  = (Ok sql,
     advance (tx w) [EvReadFile (resolve (migrationFilePath_ this) name)] w).
Proof. intros Hd Hn. unfold readFile. cbn. by rewrite Hd, Hn. Qed.

Lemma parseMigration_ok w d name sql p :
  dir w = Some d → d !! name = Some (Some sql) →
  migrationSqlParse (JStr sql) JUndefined = Ok p →
  Migrator.parseMigration_ this name w
  = (Ok p,
     advance (tx w) [EvReadFile (resolve (migrationFilePath_ this) name)] w).
Proof.
  intros Hd Hn Hp. unfold Migrator.parseMigration_.
  erewrite bind_ok; [| by eapply readFile_ok]. unfold lift. by rewrite Hp.
Qed.

Lemma migrationFiles_ok w d :
  migrationFiles_ w = None → dir w = Some d →
  migrationFiles this w
  = (Ok (listing this d),
     advance (tx w) [EvReaddir (migrationFilePath_ this)] w).
Proof.
  intros Hc Hd. unfold migrationFiles, read_migrationFiles_, bind.
  rewrite Hc. unfold readdir. cbn. by rewrite Hd.
Qed.

Lemma pending_ok w x d rows :
  tx w = Some x → failed x = false → table (work x) = Some rows →
  migrationFiles_ w = None → dir w = Some d →
  Migrator.pending this (Some t) w
  = (Ok (build <$> sort (difference (listing this d) (order_by_id rows).*2)),
     advance (Some x) [EvReaddir (migrationFilePath_ this); EvFindAll] w).
Proof.
  intros Hx Hf Ht Hc Hd. unfold Migrator.pending, promise_all2, bind.
  rewrite (migrationFiles_ok _ d Hc Hd). unfold executed.
  erewrite findAll_ok; [| by rewrite <- Hx | done..].
  rewrite names_of_instances, advance_advance. done.
Qed.

End Statements.

(** ** One pass through the loops *)


Section Iterations.

Variable this : migrator.
Variable t : transaction.

Lemma ledger_table s rows : table s = Some rows → ledger s = rows.
Proof. unfold ledger. by intros ->. Qed.

(** One migration whose SQL the database executes. *)
Lemma migrationUp_ok w x d rows name sql p :
  tx w = Some x → failed x = false → table (work x) = Some rows →
  dir w = Some d → d !! name = Some (Some sql) →
  migrationSqlParse (JStr sql) JUndefined = Ok p →
  SqlParse.up p ≠ ""%string →
  accepts w (applied (work x)) (SqlParse.up p) = true →
  name ∉ rows.*2 →
  Migrator.migrationUp_ this (build name) t w
  = (Ok tt,
     advance
       (Some (set_savepoint None
                (set_work (record_up name (SqlParse.up p) (work x)) x)))
       (up_events this name (SqlParse.up p)) w).
Proof.
  intros Hx Hf Ht Hd Hn Hp Hu Ha Hfresh. unfold Migrator.migrationUp_.
  erewrite bind_ok; [| by eapply parseMigration_ok].
  rewrite (truthy_nonempty _ Hu). cbn [negb].
  erewrite bind_ok; [| eapply savePoint_ok; [by rewrite <- Hx | done]].
  erewrite bind_ok; last first.
  { eapply try_ok, query_ok; [reflexivity | done | exact Ha]. }
  erewrite bind_ok; last first.
  { eapply releaseSavePoint_ok; [reflexivity | done | reflexivity]. }
  erewrite save_ok; [| reflexivity | done | exact Ht | done].
  rewrite !advance_advance. unfold record_up.
  rewrite (ledger_table _ _ Ht). reflexivity.
Qed.

(** One migration whose SQL the database refuses. *)
Lemma migrationUp_refused w x d name sql p :
  tx w = Some x → failed x = false →
  dir w = Some d → d !! name = Some (Some sql) →
  migrationSqlParse (JStr sql) JUndefined = Ok p →
  SqlParse.up p ≠ ""%string →
  accepts w (applied (work x)) (SqlParse.up p) = false →
  Migrator.migrationUp_ this (build name) t w
  = (Throw (DatabaseError (SqlParse.up p)),
     set_committed (work x)
       (advance None (refused_events this name (SqlParse.up p)) w)).
Proof.
  intros Hx Hf Hd Hn Hp Hu Ha. unfold Migrator.migrationUp_.
  erewrite bind_ok; [| by eapply parseMigration_ok].
  rewrite (truthy_nonempty _ Hu). cbn [negb].
  erewrite bind_ok; [| eapply savePoint_ok; [by rewrite <- Hx | done]].
  erewrite bind_throw; [reflexivity|].
  erewrite try_throw; [| eapply query_refused; [reflexivity | done | exact Ha]].
  erewrite bind_ok; last first.
  { eapply rollbackToSavePoint_ok; reflexivity. }
  erewrite bind_ok; [| eapply commit_ok; reflexivity].
  unfold throw. rewrite !advance_advance. cbn [work set_failed set_work set_savepoint].
  unfold restore. rewrite set_serial_id. reflexivity.
Qed.

(** One revert whose SQL the database executes. *)
Lemma migrationDown_ok w x d rows id name sql p down_sql :
  tx w = Some x → failed x = false → table (work x) = Some rows →
  dir w = Some d → d !! name = Some (Some sql) →
  migrationSqlParse (JStr sql) JUndefined = Ok p →
  SqlParse.down p = Some down_sql → down_sql ≠ ""%string →
  accepts w (applied (work x)) down_sql = true →
  Migrator.migrationDown_ this {| inst_id := Some id; inst_name := name |}
    t w
  = (Ok tt,
     advance
       (Some (set_savepoint None
                (set_work (record_down id down_sql (work x)) x)))
       (down_events this name down_sql id) w).
Proof.
  intros Hx Hf Ht Hd Hn Hp Hs Hu Ha. unfold Migrator.migrationDown_.
  erewrite bind_ok; [| by eapply parseMigration_ok].
  rewrite Hs. cbn [of_section ToString].
  rewrite (truthy_nonempty _ Hu). cbn [negb].
  erewrite bind_ok; [| eapply savePoint_ok; [by rewrite <- Hx | done]].
  erewrite bind_ok; last first.
  { eapply try_ok, query_ok; [reflexivity | done | exact Ha]. }
  erewrite bind_ok; last first.
  { eapply releaseSavePoint_ok; [reflexivity | done | reflexivity]. }
  erewrite destroy_ok; [| reflexivity | done | exact Ht].
  rewrite !advance_advance. unfold record_down.
  rewrite (ledger_table _ _ Ht). reflexivity.
Qed.

End Iterations.

(** ** The pending set *)



Section Pending.

Variable this : migrator.

Lemma insert_by_id_perm r l : insert_by_id r l ≡ₚ r :: l.
Proof.
  induction l as [|r' l IH]; [done|]. cbn [insert_by_id].
  case_match; [done|]. rewrite IH. apply Permutation_swap.
Qed.

Lemma order_by_id_perm rows : order_by_id rows ≡ₚ rows.
Proof.
  induction rows as [|r rows IH]; [done|].
  cbn. by rewrite insert_by_id_perm, IH.
Qed.

Lemma sort_perm l : sort l ≡ₚ l.
Proof. apply merge_sort_Permutation. Qed.

Lemma elem_of_difference_list a b x :
  x ∈ difference a b ↔ x ∈ a ∧ x ∉ b.
Proof.
  unfold difference. rewrite list_elem_of_filter, elem_of_list_to_set. tauto.
Qed.

Lemma elem_of_pending_names d s x :
  x ∈ pending_names this d s ↔ x ∈ listing this d ∧ x ∉ (ledger s).*2.
Proof.
  unfold pending_names. rewrite sort_perm, elem_of_difference_list.
  by rewrite order_by_id_perm.
Qed.

Lemma pending_names_NoDup d s : NoDup (pending_names this d s).
Proof.
  unfold pending_names, listing, difference.
  rewrite sort_perm. apply NoDup_filter. rewrite sort_perm.
  apply NoDup_filter, NoDup_fst_map_to_list.
Qed.

End Pending.

Section Order.

Lemma insert_by_id_sorted r l :
  Sorted (λ a b : nat * string, (a.1 ≤ b.1)%nat) l →
  Sorted (λ a b : nat * string, (a.1 ≤ b.1)%nat) (insert_by_id r l).
Proof.
  induction 1 as [|r' l Hs IH Hhd]; cbn [insert_by_id].
  - by repeat constructor.
  - destruct (Nat.leb_spec r.1 r'.1).
    + by repeat constructor.
    + constructor; [done|]. destruct Hhd as [|r'' l Hle]; cbn [insert_by_id].
      * constructor. lia.
      * case_match; constructor; [lia | done].
Qed.

(** [findAll] lists the rows by ascending [id]. *)
Lemma order_by_id_sorted rows :
  Sorted (λ a b : nat * string, (a.1 ≤ b.1)%nat) (order_by_id rows).
Proof.
  induction rows as [|r rows IH]; [constructor|].
  by apply insert_by_id_sorted.
Qed.

End Order.

(** ** Chaining steps *)



Section Chaining.
Context {A B : Type}.

Lemma bind_ok_eq (m : M A) (k : A → M B) w a w1 r :
  m w = (Ok a, w1) → k a w1 = r → bind m k w = r.
Proof. intros H <-. by apply bind_ok. Qed.

Lemma try_throw_eq (m : M A) (h : error → M A) w e w1 r :
  m w = (Throw e, w1) → h e w1 = r → try_catch m h w = r.
Proof. intros H <-. by apply try_throw. Qed.
End Chaining.

Lemma advance_nil w x : tx w = x → advance x [] w = w.
Proof. intros <-. destruct w. unfold advance. cbn. by rewrite app_nil_r. Qed.

Lemma setSearchPath_run this t w x p :
  tx w = Some x → failed x = false →
  setSearchPath_ this (Some p) t w
  = (Ok tt,
     advance (Some (if truthy (JStr p)
                    then set_work (set_search_path p (work x)) x else x))
       (set_path_events p) w).
Proof.
  intros Hx Hf. destruct (truthy (JStr p)) eqn:Hp.
  - erewrite setSearchPath_ok; [|done..]. unfold set_path_events. by rewrite Hp.
  - rewrite setSearchPath_skip; [|done]. unfold set_path_events. rewrite Hp.
    by rewrite advance_nil.
Qed.


(** ** Facts used by the revert *)




Section Uniqueness.

(** Two elements of a list that agree under [f] are equal when the
    images are pairwise distinct. *)
Lemma NoDup_fmap_inj {X Y} (f : X → Y) (l : list X) (a b : X) :
  NoDup (f <$> l) → a ∈ l → b ∈ l → f a = f b → a = b.
Proof.
  induction l as [|x l IH]; [by intros _ ?%elem_of_nil|].
  rewrite fmap_cons, NoDup_cons, !elem_of_cons.
  intros [Hx Hnd] [->|Ha] [->|Hb] Hf; try done.
  - exfalso. apply Hx. rewrite Hf. by apply list_elem_of_fmap_2.
  - exfalso. apply Hx. rewrite <- Hf. by apply list_elem_of_fmap_2.
  - by apply IH.
Qed.

Lemma slice_last_two {X} (l : list X) (a b : X) :
  slice (-2) (l ++ [a; b]) = [a; b].
Proof.
  unfold slice. rewrite length_app. cbn [length Z.ltb Z.compare].
  replace (Z.to_nat (Z.max (Z.of_nat (length l + 2) + -2) 0))
    with (length l + 0)%nat by lia.
  by rewrite drop_app_add.
Qed.

(** The splitter never yields an empty down section. *)
Lemma parse_down_nonempty (sql : string) (p : payload) (s : string) :
  migrationSqlParse (JStr sql) JUndefined = Ok p →
  SqlParse.down p = Some s → s ≠ ""%string.
Proof.
  intros Hp Hs.
  destruct (index_of kDefaultDelimiter sql) as [k|] eqn:E.
  - destruct (parse_down_section _ _ E) as (a & b & _ & Hp').
    rewrite Hp' in Hp. injection Hp as <-. cbn in Hs. injection Hs as <-.
    rewrite <- (append_nil_l (kDefaultDelimiter +:+ b)).
    by apply app_nonempty_r.
  - destruct (decide (sql = ""%string)) as [->|Hne]; [done|].
    rewrite parse_default, parse_with in Hp; [|done..].
    unfold indexOf in Hp. rewrite E in Hp. cbn in Hp.
    injection Hp as <-. done.
Qed.

End Uniqueness.


Lemma recentlyExecuted_two this t w x rows older r1 r2 :
  tx w = Some x → failed x = false → table (work x) = Some rows →
  order_by_id rows = older ++ [r1; r2] →
  Migrator.recentlyExecuted this (Some 2%Z) (Some t) w
  = (Ok [to_instance r1; to_instance r2], advance (Some x) [EvFindAll] w).
Proof.
  intros Hx Hf Ht Hord. unfold Migrator.recentlyExecuted, executed.
  eapply bind_ok_eq; [by eapply findAll_ok|].
  rewrite Hord, fmap_app. unfold ret. f_equal. f_equal.
  apply (slice_last_two (to_instance <$> older)).
Qed.


(** ** The runner on the sample configurations *)

Section Samples.
Import Sample.

Example constructor_defaults :
  constructor {| opt_path := Some "/migrations"; opt_pattern := None;
                 opt_modelName := None; opt_tableName := None;
                 opt_schema := None |} = Ok this.
Proof. reflexivity. Qed.

Example pattern_accepts :
  kDefaults_pattern f1 = true ∧ kDefaults_pattern "README.md" = false
  ∧ kDefaults_pattern "20200101000000_0001_.sql" = false
  ∧ kDefaults_pattern "20200101000000_0001_a-b_c.sql" = true.
Proof. vm_compute. done. Qed.

Example up_applies_all :
  let '(r, w) := Migrator.up this (world_of three accept_all empty_db) in
  r = Ok (Some [f1; f2; f3]) ∧ committed w = migrated_db ∧ tx w = None.
Proof. vm_compute. done. Qed.

End Samples.

(** ** Runs of [up] and [down] *)

Local Open Scope list_scope.

(** C1: [up] on three pending migrations [m1], [m2], [m3] (in this
    order), where the SQL of [m1] is executed and the SQL of [m2] is
    refused, rejects with the database's error for [m2]; afterwards the
    ledger is the one from before plus the row of [m1], with neither [m2]
    nor [m3] in it; only the statement of [m1] is in effect; no transaction
    (hence no table lock) is open; and the run ends with the rollback to
    the savepoint and the commit, without touching [m3].  (The session
    keeps the search path that [up] had set, and [searchPath_] the
    snapshot.) *)
Theorem up_second_fails (this : migrator) (w : world)
    (d : gmap string (option string)) (m1 m2 m3 c1 c2 : string)
    (p1 p2 : payload) :
  tx w = None →
  migrationFiles_ w = None →
  dir w = Some d →
  pending_names this d (committed w) = [m1; m2; m3] →
  d !! m1 = Some (Some c1) →
  migrationSqlParse (JStr c1) JUndefined = Ok p1 →
  SqlParse.up p1 ≠ ""%string →
  d !! m2 = Some (Some c2) →
  migrationSqlParse (JStr c2) JUndefined = Ok p2 →
  SqlParse.up p2 ≠ ""%string →
  accepts w (applied (committed w)) (SqlParse.up p1) = true →
  accepts w (applied (committed w) ++ [SqlParse.up p1]) (SqlParse.up p2)
  = false →
  ∃ w', Migrator.up this w = (Throw (DatabaseError (SqlParse.up p2)), w')
    ∧ table (committed w')
      = Some (ledger (committed w) ++ [(serial (committed w), m1)])
    ∧ (m2 ∉ (ledger (committed w')).*2)
    ∧ (m3 ∉ (ledger (committed w')).*2)
    ∧ applied (committed w') = applied (committed w) ++ [SqlParse.up p1]
    ∧ tx w' = None
    ∧ search_path (committed w')
      = (if truthy (JStr (schema_ this)) then schema_ this
         else search_path (committed w))
    ∧ searchPath_ w' = Some (search_path (committed w))
    ∧ trace w'
      = trace w ++ prelude_events this
        ++ [EvReaddir (migrationFilePath_ this); EvFindAll;
            EvQuery "SHOW search_path"]
        ++ set_path_events (schema_ this)
        ++ up_events this m1 (SqlParse.up p1)
        ++ refused_events this m2 (SqlParse.up p2).
Proof.
  intros Htx Hmf Hdir Hp H1 Hc1 Hu1 H2 Hc2 Hu2 Ha1 Ha2.
  assert (m1 ∉ (ledger (committed w)).*2) as Hfresh1.
  { eapply (elem_of_pending_names this d). rewrite Hp, !elem_of_cons. auto. }
  assert (m2 ∉ (ledger (committed w)).*2) as Hfresh2.
  { eapply (elem_of_pending_names this d). rewrite Hp, !elem_of_cons. auto. }
  assert (m3 ∉ (ledger (committed w)).*2) as Hfresh3.
  { eapply (elem_of_pending_names this d). rewrite Hp, !elem_of_cons. auto. }
  pose proof (pending_names_NoDup this d (committed w)) as Hnd.
  rewrite Hp in Hnd. apply NoDup_cons in Hnd as [Hne Hnd].
  rewrite !not_elem_of_cons in Hne. destruct Hne as (Hne2 & Hne3 & _).
  destruct (truthy (JStr (schema_ this))) eqn:Hs.
  all: eexists; split.
  1,3: unfold Migrator.up;
    (eapply bind_ok_eq; [apply sync_run|]);
    (rewrite transaction_begin; [|done]);
    (eapply try_throw_eq;
     [ apply bind_throw;
       (eapply bind_ok_eq; [eapply lockTable_ok; reflexivity|]);
       (eapply bind_ok_eq;
        [eapply (pending_ok _ _ _ _ d);
         [reflexivity | done | reflexivity | done | done]|]);
       fold (pending_names this d (committed w)); rewrite Hp;
       cbn [fmap list_fmap length Nat.eqb];
       (eapply try_throw_eq;
        [ (eapply bind_ok_eq; [eapply saveSearchPath_ok; reflexivity|]);
          (eapply bind_ok_eq; [eapply setSearchPath_run; reflexivity|]);
          apply bind_throw; unfold Migrator.migrationsUp_;
          apply bind_throw; cbn [Migrator.for_of];
          rewrite Hs;
          (eapply bind_ok_eq;
           [eapply (migrationUp_ok _ _ _ _ d (ledger (committed w)));
            [reflexivity | reflexivity | reflexivity | done..] |]);
          apply bind_throw;
          (eapply (migrationUp_refused _ _ _ _ d);
           [reflexivity | reflexivity | done..])
        | reflexivity ])
     | reflexivity ]).
  all: cbn; split_and!;
    [ done
    | rewrite fmap_app, not_elem_of_app; split;
        [done | cbn; intros E%list_elem_of_singleton; congruence]
    | rewrite fmap_app, not_elem_of_app; split;
        [done | cbn; intros E%list_elem_of_singleton; congruence]
    | done
    | done
    | done
    | done
    | by rewrite <- !(assoc_L (++)) ].
Qed.

Lemma up_second_fails_witness :
  ∃ w', Migrator.up Sample.this
          (Sample.world_of Sample.three Sample.refuse_posts Sample.empty_db)
        = (Throw (DatabaseError "create table posts (id serial)"), w')
    ∧ table (committed w') = Some [(1, Sample.f1)]
    ∧ applied (committed w') = ["create table users (id serial)"%string]
    ∧ tx w' = None.
Proof.
  destruct (up_second_fails Sample.this
              (Sample.world_of Sample.three Sample.refuse_posts
                 Sample.empty_db)
              Sample.three Sample.f1 Sample.f2 Sample.f3
              ("create table users (id serial)" +:+ kDefaultDelimiter
               +:+ "drop table users")
              ("create table posts (id serial)" +:+ kDefaultDelimiter
               +:+ "drop table posts")
              {| up := "create table users (id serial)";
                 down := Some (kDefaultDelimiter +:+ "drop table users") |}
              {| up := "create table posts (id serial)";
                 down := Some (kDefaultDelimiter +:+ "drop table posts") |})
    as (w' & Hrun & Ht & _ & _ & Ha & Htx & _ & _ & _);
    [ reflexivity | reflexivity | reflexivity | by vm_compute
    | by vm_compute | by vm_compute | discriminate
    | by vm_compute | by vm_compute | discriminate
    | reflexivity | by vm_compute | ].
  exists w'. split_and!; [exact Hrun | exact Ht | exact Ha | exact Htx].
Defined.

(** C2 fails on the code.  With two pending migrations of which the second
    has an empty up section, or cannot be read, the first one runs and is
    recorded inside the transaction; the error is thrown before any
    savepoint or commit, so [sequelize.transaction] rolls the whole
    transaction back: the first migration's statement and ledger row are
    gone.  The same happens to the reverts of [down] when a later file
    lacks its down section. *)
Theorem progress_lost_without_sql_failure :
  let w_up := Sample.world_of Sample.second_without_up Sample.accept_all
                Sample.empty_db in
  let w_io := Sample.world_of Sample.second_unreadable Sample.accept_all
                Sample.empty_db in
  let w_down := Sample.world_of Sample.first_without_down Sample.accept_all
                  Sample.migrated_db in
  (fst (Migrator.up Sample.this w_up)
   = Throw (Error ("cannot run migration, " ++ Sample.f2
                   ++ ": missing 'up' SQL"))
   ∧ EvInsert Sample.f1 ∈ trace (snd (Migrator.up Sample.this w_up))
   ∧ last (trace (snd (Migrator.up Sample.this w_up))) = Some EvRollback
   ∧ table (committed (snd (Migrator.up Sample.this w_up))) = Some []
   ∧ applied (committed (snd (Migrator.up Sample.this w_up))) = [])
  ∧ (fst (Migrator.up Sample.this w_io)
     = Throw (IOError (resolve "/migrations" Sample.f2))
     ∧ EvInsert Sample.f1 ∈ trace (snd (Migrator.up Sample.this w_io))
     ∧ table (committed (snd (Migrator.up Sample.this w_io))) = Some []
     ∧ applied (committed (snd (Migrator.up Sample.this w_io))) = [])
  ∧ (fst (Migrator.down Sample.this (Some 3%Z) w_down)
     = Throw (Error ("cannot run migration, " ++ Sample.f1
                     ++ ": missing 'down' SQL"))
     ∧ EvDelete 3 ∈ trace (snd (Migrator.down Sample.this (Some 3%Z) w_down))
     ∧ EvDelete 2 ∈ trace (snd (Migrator.down Sample.this (Some 3%Z) w_down))
     ∧ committed (snd (Migrator.down Sample.this (Some 3%Z) w_down))
       = Sample.migrated_db).
Proof.
  vm_compute. split_and!; try reflexivity; apply list_elem_of_In; simpl; tauto.
Qed.

(** C3 fails on the code.  When the SQL of a migration is refused, [up]
    rolls back to the savepoint, commits and rethrows; its [catch] block
    only logs.  The session keeps the search path [public] that [up] had
    set, and [searchPath_] keeps the snapshot. *)
Theorem search_path_not_restored_on_failure :
  let w := Sample.world_of Sample.three Sample.refuse_posts Sample.empty_db in
  let w' := snd (Migrator.up Sample.this w) in
  fst (Migrator.up Sample.this w)
  = Throw (DatabaseError "create table posts (id serial)")
  ∧ search_path (committed w) = "app, public"
  ∧ searchPath_ w' = Some "app, public"
  ∧ search_path (committed w') = "public"
  ∧ tx w' = None.
Proof. vm_compute. done. Qed.

(** C6, as stated, fails: the files having a down section does not make
    the database execute it.  Here the three migrations are applied and
    the database refuses to drop [posts]: [down(2)] reverts [tags],
    fails on [posts] and rejects; [posts] stays in the ledger. *)
Lemma down_two_counterexample :
  let w := Sample.world_of Sample.three Sample.refuse_drop_posts
             Sample.migrated_db in
  let w' := snd (Migrator.down Sample.this (Some 2%Z) w) in
  is_Some (index_of kDefaultDelimiter
             ("create table posts (id serial)" ++ kDefaultDelimiter
              ++ "drop table posts"))
  ∧ is_Some (index_of kDefaultDelimiter
               ("create table tags (id serial)" ++ kDefaultDelimiter
                ++ "drop table tags"))
  ∧ fst (Migrator.down Sample.this (Some 2%Z) w)
    = Throw (DatabaseError (kDefaultDelimiter ++ "drop table posts"))
  ∧ table (committed w') = Some [(1, Sample.f1); (2, Sample.f2)].
Proof. vm_compute. split_and!; eauto. Qed.

(** C6 (amended): for every ledger whose two most recent entries (by [id])
    are [r1] then [r2], whose files each contain a down section that the
    database executes, [down(2)] fulfils with the names of [r2] and [r1] in
    this order, runs the down SQL of [r2] before that of [r1], deletes
    exactly these two rows, and afterwards the ledger has no entry for
    either name. *)
Theorem down_two (this : migrator) (w : world)
    (d : gmap string (option string)) (older : list (nat * string))
    (r1 r2 : nat * string) (c1 c2 : string) (p1 p2 : payload)
    (s1 s2 : string) :
  tx w = None →
  order_by_id (ledger (committed w)) = older ++ [r1; r2] →
  NoDup (ledger (committed w)).*1 →
  NoDup (ledger (committed w)).*2 →
  dir w = Some d →
  d !! r2.2 = Some (Some c2) →
  migrationSqlParse (JStr c2) JUndefined = Ok p2 →
  SqlParse.down p2 = Some s2 →
  d !! r1.2 = Some (Some c1) →
  migrationSqlParse (JStr c1) JUndefined = Ok p1 →
  SqlParse.down p1 = Some s1 →
  accepts w (applied (committed w)) s2 = true →
  accepts w (applied (committed w) ++ [s2]) s1 = true →
  ∃ w', Migrator.down this (Some 2%Z) w = (Ok (Some [r2.2; r1.2]), w')
    ∧ (∀ r, r ∈ ledger (committed w')
            ↔ r ∈ ledger (committed w) ∧ r ≠ r1 ∧ r ≠ r2)
    ∧ (r1.2 ∉ (ledger (committed w')).*2)
    ∧ (r2.2 ∉ (ledger (committed w')).*2)
    ∧ applied (committed w') = applied (committed w) ++ [s2; s1]
    ∧ tx w' = None
    ∧ trace w'
      = trace w ++ prelude_events this
        ++ [EvFindAll; EvQuery "SHOW search_path"]
        ++ down_events this r2.2 s2 r2.1
        ++ down_events this r1.2 s1 r1.1
        ++ set_path_events (search_path (committed w))
        ++ [EvCommit].
Proof.
  intros Htx Hord Hid Hname Hdir H2 Hc2 Hs2 H1 Hc1 Hs1 Ha2 Ha1.
  assert (r1 ∈ ledger (committed w) ∧ r2 ∈ ledger (committed w)) as [Hr1 Hr2].
  { rewrite <- !(order_by_id_perm (ledger (committed w))), Hord.
    rewrite !elem_of_app, !elem_of_cons. auto. }
  assert (∀ r, r ∈ filter (λ r0 : nat * string, r0.1 ≠ r1.1)
                     (filter (λ r0 : nat * string, r0.1 ≠ r2.1)
                        (ledger (committed w)))
               ↔ r ∈ ledger (committed w) ∧ r ≠ r1 ∧ r ≠ r2) as Hrows.
  { intros r. rewrite !list_elem_of_filter. split.
    - intros (? & ? & ?). split_and!; [done | congruence..].
    - intros (Hr & Hn1' & Hn2'). split_and!; [| |done].
      + intros E. apply Hn1'. by eapply (NoDup_fmap_inj fst).
      + intros E. apply Hn2'. by eapply (NoDup_fmap_inj fst). }
  assert (∀ r0, r0 ∈ [r1; r2] →
            r0.2 ∉ (filter (λ r : nat * string, r.1 ≠ r1.1)
                      (filter (λ r : nat * string, r.1 ≠ r2.1)
                         (ledger (committed w)))).*2) as Hgone.
  { intros r0 Hr0 (r & E & Hr)%list_elem_of_fmap.
    apply Hrows in Hr as (Hr & Hn1' & Hn2').
    assert (r0 ∈ ledger (committed w) ∧ (r0 = r1 ∨ r0 = r2)) as [Hin [?|?]].
    { rewrite !elem_of_cons, elem_of_nil in Hr0.
      destruct Hr0 as [->| [->|[]]]; auto. }
    all: assert (r = r0) as ->
      by (eapply (NoDup_fmap_inj snd); [done..]); done. }
  pose proof (parse_down_nonempty _ _ _ Hc2 Hs2) as Hn2.
  pose proof (parse_down_nonempty _ _ _ Hc1 Hs1) as Hn1.
  destruct (truthy (JStr (search_path (committed w)))) eqn:Hs.
  all: eexists; split.
  1,3: unfold Migrator.down;
    (eapply bind_ok_eq; [apply sync_run|]);
    (rewrite transaction_begin; [|done]);
    eapply try_ok;
    (eapply bind_ok_eq;
     [ (eapply bind_ok_eq; [eapply lockTable_ok; reflexivity|]);
       (eapply bind_ok_eq;
        [eapply recentlyExecuted_two;
         [reflexivity | reflexivity | reflexivity | exact Hord]|]);
       cbn [length Nat.eqb reverse rev_append];
       eapply try_ok;
       (eapply bind_ok_eq; [eapply saveSearchPath_ok; reflexivity|]);
       (eapply bind_ok_eq;
        [ unfold Migrator.migrationsDown_;
          (eapply bind_ok_eq; [|reflexivity]);
          cbn [Migrator.for_of];
          (eapply bind_ok_eq;
           [eapply (migrationDown_ok _ _ _ _ d);
            [reflexivity | reflexivity | reflexivity | done..] |]);
          (eapply bind_ok_eq;
           [eapply (migrationDown_ok _ _ _ _ d);
            [reflexivity | reflexivity | reflexivity | done..] |]);
          reflexivity |]);
       (eapply bind_ok_eq; [reflexivity|]);
       (eapply bind_ok_eq; [eapply setSearchPath_run; reflexivity|]);
       cbn [search_path work set_locked fresh_txn committed set_committed
            synced set_table];
       rewrite Hs;
       reflexivity
     | eapply bind_ok_eq; [eapply commit_ok; reflexivity | reflexivity] ]).
  all: cbn; split_and!;
    [ done
    | apply Hgone; rewrite !elem_of_cons; auto
    | apply Hgone; rewrite !elem_of_cons; auto
    | by rewrite <- (assoc_L (++))
    | done
    | by rewrite <- !(assoc_L (++)) ].
Qed.

Lemma down_two_witness :
  ∃ w', Migrator.down Sample.this (Some 2%Z)
          (Sample.world_of Sample.three Sample.accept_all Sample.migrated_db)
        = (Ok (Some [Sample.f3; Sample.f2]), w')
    ∧ (Sample.f2 ∉ (ledger (committed w')).*2)
    ∧ (Sample.f3 ∉ (ledger (committed w')).*2)
    ∧ tx w' = None.
Proof.
  destruct (down_two Sample.this
              (Sample.world_of Sample.three Sample.accept_all
                 Sample.migrated_db)
              Sample.three [(1, Sample.f1)] (2, Sample.f2) (3, Sample.f3)
              ("create table posts (id serial)" +:+ kDefaultDelimiter
               +:+ "drop table posts")
              ("create table tags (id serial)" +:+ kDefaultDelimiter
               +:+ "drop table tags")
              {| up := "create table posts (id serial)";
                 down := Some (kDefaultDelimiter +:+ "drop table posts") |}
              {| up := "create table tags (id serial)";
                 down := Some (kDefaultDelimiter +:+ "drop table tags") |}
              (kDefaultDelimiter +:+ "drop table posts")
              (kDefaultDelimiter +:+ "drop table tags"))
    as (w' & Hrun & _ & H1 & H2 & _ & Htx & _);
    [ reflexivity | by vm_compute
    | apply (bool_decide_unpack _); by vm_compute
    | apply (bool_decide_unpack _); by vm_compute
    | reflexivity | by vm_compute | by vm_compute | reflexivity
    | by vm_compute | by vm_compute | reflexivity
    | reflexivity | reflexivity | ].
  exists w'. split_and!; [exact Hrun | exact H1 | exact H2 | exact Htx].
Defined.

(** ** What a fulfilled run implies *)



Section Inversion.

Variable this : migrator.
Variable t : transaction.

Lemma set_table_id s rows : table s = Some rows → set_table (Some rows) s = s.
Proof. destruct s. cbn. by intros ->. Qed.

Lemma synced_id s : is_Some (table s) → synced s = s.
Proof. intros [rows H]. unfold synced, ledger. rewrite H. by apply set_table_id. Qed.

Lemma migrationFiles_run w F :
  files_of this w = Some F →
  migrationFiles this w
  = (Ok F, advance (tx w) (readdir_events this w) w).
Proof.
  unfold files_of, readdir_events, migrationFiles, read_migrationFiles_, bind.
  destruct (migrationFiles_ w) as [l|] eqn:E.
  - intros [= ->]. unfold ret. by rewrite advance_nil.
  - destruct (dir w) as [d|] eqn:Hd; [|done]. intros [= <-].
    unfold readdir. cbn. by rewrite Hd.
Qed.

Lemma migrationFiles_inv w F w' :
  migrationFiles this w = (Ok F, w') →
  files_of this w = Some F
  ∧ w' = advance (tx w) (readdir_events this w) w.
Proof.
  intros H. destruct (files_of this w) as [F'|] eqn:E.
  - rewrite (migrationFiles_run _ _ E) in H. by injection H as -> <-.
  - exfalso. revert H E.
    unfold files_of, migrationFiles, read_migrationFiles_, bind, readdir.
    cbn. destruct (migrationFiles_ w); [done|].
    by destruct (dir w).
Qed.

Lemma pending_run w x rows F :
  tx w = Some x → failed x = false → table (work x) = Some rows →
  files_of this w = Some F →
  Migrator.pending this (Some t) w
  = (Ok (build <$> sort (difference F (order_by_id rows).*2)),
     advance (Some x) (readdir_events this w ++ [EvFindAll]) w).
Proof.
  intros Hx Hf Ht HF. unfold Migrator.pending, promise_all2, bind.
  rewrite (migrationFiles_run _ _ HF). unfold executed.
  erewrite findAll_ok; [| by rewrite <- Hx | done..].
  rewrite names_of_instances, advance_advance. done.
Qed.

Lemma findAll_inv w l w' :
  findAll (Some t) w = (Ok l, w') →
  ∃ x rows, tx w = Some x ∧ failed x = false ∧ table (work x) = Some rows.
Proof.
  unfold findAll, statement. intros (x & x' & Hx & Hf & Hr & _)%in_txn_ok_inv.
  unfold on_work in Hr. destruct (table (work x)) as [rows|] eqn:E; [|done].
  by exists x, rows.
Qed.

Lemma pending_inv w l w' :
  Migrator.pending this (Some t) w = (Ok l, w') →
  ∃ x rows F, tx w = Some x ∧ failed x = false ∧ table (work x) = Some rows
    ∧ files_of this w = Some F.
Proof.
  unfold Migrator.pending, promise_all2, bind.
  destruct (migrationFiles this w) as [[F|e] wa] eqn:E1.
  - apply migrationFiles_inv in E1 as [HF ->]. unfold executed.
    destruct (findAll (Some t) _) as [[rows|e] wb] eqn:E2; [|done].
    apply findAll_inv in E2 as (x & rs & Hx & Hf & Ht).
    intros _. by exists x, rs, F.
  - by destruct (executed this (Some t) wa) as [[?|?] ?].
Qed.


Lemma parseMigration_inv w name p w' :
  Migrator.parseMigration_ this name w = (Ok p, w') →
  w' = advance (tx w)
         [EvReadFile (resolve (migrationFilePath_ this) name)] w.
Proof.
  unfold Migrator.parseMigration_. intros (sql & w1 & Hr & Hl)%bind_ok_inv.
  unfold lift in Hl. injection Hl as _ <-.
  unfold readFile in Hr. cbn in Hr.
  destruct (dir w) as [d|]; [|done].
  destruct (d !! name) as [[c|]|]; [|done..].
  by injection Hr as _ <-.
Qed.

Lemma savePoint_inv w w' :
  savePoint_ this t w = (Ok tt, w') →
  ∃ x, tx w = Some x ∧ failed x = false
    ∧ w' = advance (Some (set_savepoint (Some (work x)) x))
             [EvQuery ("SAVEPOINT " +:+ kSavePointName)] w.
Proof.
  unfold savePoint_, query_savepoint.
  intros (x & x' & Hx & Hf & [= <-] & ->)%in_txn_ok_inv. by exists x.
Qed.

Lemma query_inv w sql w' :
  query sql t w = (Ok tt, w') →
  ∃ x, tx w = Some x ∧ failed x = false
    ∧ w' = advance
             (Some (set_work (set_applied (applied (work x) ++ [sql])
                                (work x)) x))
             [EvQuery sql] w.
Proof.
  unfold query, statement.
  intros (x & x' & Hx & Hf & Hr & ->)%in_txn_ok_inv.
  unfold on_work in Hr. cbn in Hr.
  destruct (accepts w (applied (work x)) sql); [|done].
  injection Hr as <-. by exists x.
Qed.

Lemma releaseSavePoint_inv w w' :
  releaseSavePoint_ this t w = (Ok tt, w') →
  ∃ x, tx w = Some x ∧ failed x = false
    ∧ w' = advance (Some (set_savepoint None x))
             [EvQuery ("RELEASE SAVEPOINT " +:+ kSavePointName)] w.
Proof.
  unfold releaseSavePoint_, query_release_savepoint.
  intros (x & x' & Hx & Hf & Hr & ->)%in_txn_ok_inv.
  destruct (savepoint x); [|done]. injection Hr as <-. by exists x.
Qed.

Lemma save_inv w m w' :
  save m t w = (Ok tt, w') →
  ∃ x rows, tx w = Some x ∧ failed x = false ∧ table (work x) = Some rows
    ∧ w' = advance
             (Some (set_work
                      (set_serial (S (serial (work x)))
                         (set_table
                            (Some (rows ++ [(serial (work x), inst_name m)]))
                            (work x))) x))
             [EvInsert (inst_name m)] w.
Proof.
  unfold save, statement.
  intros (x & x' & Hx & Hf & Hr & ->)%in_txn_ok_inv.
  unfold on_work in Hr. destruct (table (work x)) as [rows|] eqn:E; [|done].
  case_decide; [done|]. injection Hr as <-. by exists x, rows.
Qed.

(** A migration that goes through leaves its row in the working
    ledger. *)
Lemma migrationUp_inv w m w' :
  Migrator.migrationUp_ this m t w = (Ok tt, w') →
  ∃ x rows sql, tx w = Some x ∧ failed x = false
    ∧ table (work x) = Some rows
    ∧ w' = advance
             (Some (set_savepoint None
                      (set_work (record_up (inst_name m) sql (work x)) x)))
             (up_events this (inst_name m) sql) w.
Proof.
  unfold Migrator.migrationUp_.
  intros (p & w1 & ->%parseMigration_inv & H)%bind_ok_inv.
  destruct (negb (truthy (JStr (SqlParse.up p)))); [done|].
  apply bind_ok_inv in H as ([] & w2 & (x & Hx & Hf & ->)%savePoint_inv & H).
  apply bind_ok_inv in H as ([] & w3 & Hq & H).
  apply try_ok_inv in Hq as [Hq | (e & w4 & _ & Hq)];
    [|by apply rethrow_not_ok in Hq].
  apply query_inv in Hq as (x1 & [= <-] & _ & ->).
  apply bind_ok_inv in H as ([] & w5 & (x2 & [= <-] & _ & ->)%releaseSavePoint_inv & H).
  apply save_inv in H as (x3 & rows & [= <-] & _ & Ht & ->).
  exists x, rows, (SqlParse.up p). split_and!; [done..|].
  rewrite !advance_advance. unfold record_up. cbn in Ht.
  rewrite (ledger_table _ _ Ht). reflexivity.
Qed.


Lemma keeps_ledger_refl w : keeps_ledger w w.
Proof. unfold keeps_ledger. split_and!; [done..|]. intros x ? ?. by exists x. Qed.

Lemma keeps_ledger_trans w1 w2 w3 :
  keeps_ledger w1 w2 → keeps_ledger w2 w3 → keeps_ledger w1 w3.
Proof.
  intros (Hd & Hm & Hc & H) (Hd' & Hm' & Hc' & H').
  split_and!; [congruence..|]. intros x Hx Hf.
  destruct (H x Hx Hf) as (x' & Hx' & Hf' & Ht).
  destruct (H' x' Hx' Hf') as (x'' & Hx'' & Hf'' & Ht').
  exists x''. split_and!; [done.. | congruence].
Qed.

Lemma saveSearchPath_keeps w w' :
  saveSearchPath_ this t w = (Ok tt, w') → keeps_ledger w w'.
Proof.
  unfold saveSearchPath_, query_show_search_path, statement.
  intros (p & w1 & (x & x' & Hx & Hf & Hr & ->)%in_txn_ok_inv & Hw)%bind_ok_inv.
  unfold write_searchPath_ in Hw. injection Hw as <-.
  unfold on_work in Hr. injection Hr as _ <-.
  split_and!; [done..|]. intros x0 Hx0 _. eexists. split; [reflexivity|].
  cbn. rewrite Hx in Hx0. injection Hx0 as ->. done.
Qed.

Lemma setSearchPath_keeps w sp w' :
  setSearchPath_ this sp t w = (Ok tt, w') → keeps_ledger w w'.
Proof.
  unfold setSearchPath_. destruct sp as [p|].
  - destruct (truthy (JStr p)).
    + unfold query_set_search_path, statement.
      intros (x & x' & Hx & Hf & Hr & ->)%in_txn_ok_inv.
      unfold on_work in Hr. injection Hr as <-.
      split_and!; [done..|]. intros x0 Hx0 _. eexists. split; [reflexivity|].
      cbn. rewrite Hx in Hx0. injection Hx0 as ->. done.
    + intros [= <-]. apply keeps_ledger_refl.
  - intros [= <-]. apply keeps_ledger_refl.
Qed.

(** The loop of [migrationsUp_], when it goes through: every migration
    of the list, and every row from before, is in the working ledger. *)
Lemma for_of_up_inv l w w' x :
  Migrator.for_of l (λ m, Migrator.migrationUp_ this m t) w = (Ok tt, w') →
  tx w = Some x → failed x = false → is_Some (table (work x)) →
  dir w' = dir w ∧ migrationFiles_ w' = migrationFiles_ w
  ∧ committed w' = committed w
  ∧ ∃ x', tx w' = Some x' ∧ failed x' = false ∧ is_Some (table (work x'))
      ∧ (∀ n, n ∈ (ledger (work x)).*2 → n ∈ (ledger (work x')).*2)
      ∧ (∀ m, m ∈ l → inst_name m ∈ (ledger (work x')).*2).
Proof.
  revert w x. induction l as [|m l IH]; intros w x H Hx Hf Ht.
  - injection H as <-. split_and!; [done..|]. exists x.
    split_and!; [done..| |]; [done | by intros ? ?%elem_of_nil].
  - cbn [Migrator.for_of] in H.
    apply bind_ok_inv in H as ([] & w1 & Hm & H).
    apply migrationUp_inv in Hm as (x0 & rows & sql & Hx0 & _ & Hrows & ->).
    rewrite Hx in Hx0. injection Hx0 as <-.
    eapply IH in H as (Hd & Hc & Hcm & x' & Hx' & Hf' & Ht' & Hold & Hnew);
      [| reflexivity | done | by eexists].
    split_and!; [done..|]. exists x'. split_and!; [done..| |].
    + intros n Hn. apply Hold. cbn. rewrite fmap_app, elem_of_app. by left.
    + intros m' [->|Hm']%elem_of_cons; [|by apply Hnew].
      apply Hold. cbn. rewrite fmap_app, elem_of_app. right.
      by apply list_elem_of_singleton.
Qed.

End Inversion.

(** ** Calling [up] again *)



Section Again.

Variable this : migrator.

Lemma difference_nil (a b : list string) :
  (∀ x, x ∈ a → x ∈ b) → difference a b = [].
Proof.
  intros H. unfold difference. induction a as [|x a IH]; [done|].
  rewrite filter_cons_False.
  - apply IH. intros y Hy. apply H. by apply list_elem_of_further.
  - intros Hx. apply Hx. apply elem_of_list_to_set, H, list_elem_of_here.
Qed.

Lemma sort_nil_inv l : sort l = [] → l = [].
Proof.
  intros H. apply Permutation_nil_r. rewrite <- H. symmetry. apply sort_perm.
Qed.

Lemma files_of_frame w w' :
  dir w' = dir w → migrationFiles_ w' = migrationFiles_ w →
  files_of this w' = files_of this w.
Proof. unfold files_of. by intros -> ->. Qed.

(** A fulfilled [up] leaves every listed file in the ledger. *)
Lemma up_ok_inv w r w1 :
  Migrator.up this w = (Ok r, w1) →
  tx w = None ∧ tx w1 = None ∧ dir w1 = dir w
  ∧ migrationFiles_ w1 = migrationFiles_ w
  ∧ is_Some (table (committed w1))
  ∧ ∃ F, files_of this w = Some F
      ∧ ∀ f, f ∈ F → f ∈ (ledger (committed w1)).*2.
Proof.
  unfold Migrator.up. intros H.
  apply bind_ok_inv in H as ([] & wa & Hs & H).
  rewrite sync_run in Hs. injection Hs as <-.
  apply transaction_ok_inv in H as (Htx & wc & xc & H & Hxc & ->).
  apply bind_ok_inv in H as ([] & wl & Hl & H).
  erewrite lockTable_ok in Hl; [| reflexivity | reflexivity | reflexivity].
  injection Hl as <-.
  apply bind_ok_inv in H as (l & wp & Hp & H).
  pose proof (pending_inv _ _ _ _ _ Hp) as (x & rows & F & Hx & Hf & Ht & HF).
  erewrite pending_run in Hp; [| done..]. injection Hp as <- <-.
  cbn in Hx. injection Hx as <-. cbn in Ht. injection Ht as <-.
  rewrite (files_of_frame w) in HF by done.
  split; [done|]. 
  destruct (length _ =? 0)%nat eqn:Hlen.
  - injection H as <- <-. cbn in Hxc. injection Hxc as <-.
    cbn. split_and!; [done.. | by eexists |]. exists F. split; [done|].
    apply Nat.eqb_eq in Hlen. rewrite length_fmap in Hlen.
    apply nil_length_inv, sort_nil_inv in Hlen.
    intros f Hin0. destruct (decide (f ∈ (ledger (committed w)).*2)); [done|].
    assert (f ∈ difference F (order_by_id (ledger (committed w))).*2) as Hin.
    { apply elem_of_difference_list. by rewrite order_by_id_perm. }
    rewrite Hlen in Hin. by apply elem_of_nil in Hin.
  - set (x0 := set_locked true (fresh_txn (synced (committed w)))) in *.
    set (P := sort (difference F (order_by_id (ledger (committed w))).*2))
      in *.
    remember (advance (Some x0) _ _) as w0 eqn:Ew0 in H.
    assert (tx w0 = Some x0 ∧ dir w0 = dir w
            ∧ migrationFiles_ w0 = migrationFiles_ w) as (Hx0 & Hd0 & Hm0)
      by by subst w0.
    clear Ew0 Hlen.
    apply try_ok_inv in H as [H | (e & w' & _ & H)]; [|done].
    apply bind_ok_inv in H as ([] & w1 & K1%saveSearchPath_keeps & H).
    apply bind_ok_inv in H as ([] & w2 & K2%setSearchPath_keeps & H).
    pose proof (keeps_ledger_trans _ _ _ K1 K2) as (Hd2 & Hm2 & Hc2 & K).
    destruct (K x0 Hx0 Hf) as (x2 & Hx2 & Hf2 & Ht2).
    apply bind_ok_inv in H as (ms & w3 & Hup & H).
    unfold Migrator.migrationsUp_ in Hup.
    apply bind_ok_inv in Hup as ([] & w3' & Hloop & [= <- <-]).
    eapply for_of_up_inv in Hloop
        as (Hd3 & Hm3 & Hc3 & x3 & Hx3 & Hf3 & Ht3 & Hold & Hnew);
      [| done | done | by rewrite Ht2].
    apply bind_ok_inv in H as (sp & w4 & [= <- <-] & H).
    apply bind_ok_inv in H as ([] & w5 & (Hd5 & Hm5 & Hc5 & K5)%setSearchPath_keeps & H).
    destruct (K5 x3 Hx3 Hf3) as (x5 & Hx5 & Hf5 & Ht5).
    apply bind_ok_inv in H as ([] & w6 & [= <-] & [= <- <-]).
    cbn in Hxc. rewrite Hx5 in Hxc. injection Hxc as <-. rewrite Hf5.
    cbn. split_and!; [congruence.. | by rewrite Ht5 |].
    exists F. split; [done|]. intros f Hin0.
    assert (ledger (work x5) = ledger (work x3)) as -> by (unfold ledger; by rewrite Ht5).
    destruct (decide (f ∈ (ledger (committed w)).*2)) as [Hin|Hnin].
    + apply Hold. unfold ledger at 1. by rewrite Ht2.
    + apply (Hnew (build f)). apply list_elem_of_fmap_2.
      unfold P. rewrite sort_perm. apply elem_of_difference_list.
      by rewrite order_by_id_perm.
Qed.

(** With every listed file in the ledger, [up] only looks. *)
Lemma up_nothing_pending w F :
  tx w = None → is_Some (table (committed w)) →
  files_of this w = Some F →
  (∀ f, f ∈ F → f ∈ (ledger (committed w)).*2) →
  Migrator.up this w
  = (Ok None,
     advance None
       (prelude_events this ++ readdir_events this w
        ++ [EvFindAll; EvCommit]) w).
Proof.
  intros Htx Ht HF Hall. unfold Migrator.up.
  eapply bind_ok_eq; [apply sync_run|].
  rewrite transaction_begin; [|done].
  rewrite (synced_id _ Ht). destruct Ht as [rows Hrows].
  rewrite (ledger_table _ _ Hrows) in Hall.
  eapply try_ok.
  eapply bind_ok_eq.
  - eapply bind_ok_eq; [eapply lockTable_ok; [reflexivity.. | exact Hrows]|].
    eapply bind_ok_eq.
    { eapply (pending_run _ _ _ _ rows F);
        [reflexivity | reflexivity | exact Hrows | by rewrite <- HF]. }
    rewrite difference_nil; [reflexivity|].
    intros f Hf. rewrite order_by_id_perm. by apply Hall.
  - eapply bind_ok_eq; [eapply commit_ok; reflexivity|].
    unfold ret. f_equal. cbn.
    destruct w as [? ? cm ? ? ? tr]. unfold advance, set_committed, readdir_events.
    cbn. f_equal. by rewrite <- !(assoc_L (++)).
Qed.

End Again.

(** C4, as stated, fails: the second call fulfils with [null], not with
    an empty list. *)
Lemma up_twice_counterexample :
  let w := Sample.world_of Sample.three Sample.accept_all Sample.empty_db in
  let w1 := snd (Migrator.up Sample.this w) in
  fst (Migrator.up Sample.this w)
  = Ok (Some [Sample.f1; Sample.f2; Sample.f3])
  ∧ fst (Migrator.up Sample.this w1) = Ok None
  ∧ fst (Migrator.up Sample.this w1) ≠ Ok (Some []).
Proof. vm_compute. split_and!; [reflexivity | reflexivity | discriminate]. Qed.

(** C4 (amended): after a call of [up] that fulfilled, a second call on
    the state it left (same directory) fulfils with [null]; it leaves the
    committed database as it found it (no new ledger row, no statement of
    a migration) and no transaction open; all it does is sync, begin,
    lock, list the directory, select the ledger and commit. *)
Theorem up_again_is_noop (this : migrator) (w w1 : world)
    (r : option (list string)) :
  Migrator.up this w = (Ok r, w1) →
  ∃ w2, Migrator.up this w1 = (Ok None, w2)
    ∧ committed w2 = committed w1
    ∧ dir w2 = dir w
    ∧ tx w2 = None
    ∧ trace w2
      = trace w1 ++ prelude_events this ++ readdir_events this w1
        ++ [EvFindAll; EvCommit].
Proof.
  intros (_ & Htx & Hd & Hm & Ht & F & HF & Hall)%up_ok_inv.
  eexists. split.
  - eapply up_nothing_pending; [done | done | | done].
    by rewrite (files_of_frame this w).
  - cbn. done.
Qed.

Lemma up_again_is_noop_witness :
  let w := Sample.world_of Sample.three Sample.accept_all Sample.empty_db in
  ∃ w2, Migrator.up Sample.this (snd (Migrator.up Sample.this w))
        = (Ok None, w2)
    ∧ committed w2 = Sample.migrated_db.
Proof.
  intros w.
  destruct (up_again_is_noop Sample.this w (snd (Migrator.up Sample.this w))
              (Some [Sample.f1; Sample.f2; Sample.f3]))
    as (w2 & Hrun & Hc & _); [by vm_compute|].
  exists w2. split; [exact Hrun|]. rewrite Hc. by vm_compute.
Defined.

(** ** The directory listing *)

(** C5 fails on the code.  [migrationFiles] tests [this.migrationFiles_]
    but nothing ever assigns it: on an instance as the constructor leaves
    it, two calls in a row list the directory twice and the field is still
    [null] in between. *)
Theorem migrationFiles_lists_again (this : migrator) (w : world) :
  let w0 := constructed w in
  let w1 := snd (migrationFiles this w0) in
  let w2 := snd (migrationFiles this w1) in
  migrationFiles_ w1 = None
  ∧ trace w2 = (trace w ++ [EvReaddir (migrationFilePath_ this);
                            EvReaddir (migrationFilePath_ this)])%list.
Proof.
  unfold migrationFiles, constructed, read_migrationFiles_, bind, readdir, ret.
  cbn. destruct (dir w) eqn:E; cbn; rewrite E; cbn;
    by rewrite <- (assoc_L (++)).
Qed.

Example migrationFiles_twice :
  let w := Sample.world_of Sample.three Sample.accept_all Sample.empty_db in
  let '(r1, w1) := migrationFiles Sample.this w in
  let '(r2, w2) := migrationFiles Sample.this w1 in
  r1 = Ok [Sample.f1; Sample.f2; Sample.f3] ∧ r2 = r1
  ∧ trace w2 = [EvReaddir "/migrations"; EvReaddir "/migrations"].
Proof. vm_compute. done. Qed.

(** ** The two implementations *)

Section Chain.

Variable P : promise_impl.
Variable this : migrator.

Lemma chain_parse_throws name w :
  PromiseChain.parseMigration_ this name w
  = (Throw (ReferenceError "readFile is not defined"), w).
Proof. reflexivity. Qed.

(** The promise-chain [up] never gets to apply a migration: it rejects
    or, with nothing pending, fulfils with [null]. *)
Lemma chain_up_never_applies w l w' :
  PromiseChain.up P this w ≠ (Ok (Some l), w').
Proof.
  unfold PromiseChain.up. intros H.
  apply bind_ok_inv in H as ([] & wa & _ & H).
  apply transaction_ok_inv in H as (_ & wc & xc & H & _ & _).
  apply bind_ok_inv in H as ([] & wl & _ & H).
  apply bind_ok_inv in H as (ms & wp & Hp & H).
  destruct ms as [|m ms]; [done|]. cbn [length Nat.eqb] in H.
  apply try_ok_inv in H as [H | (e & w1 & _ & H)]; [|done].
  apply bind_ok_inv in H as ([] & w1 & _ & H).
  apply bind_ok_inv in H as ([] & w2 & _ & H).
  apply bind_ok_inv in H as (ms' & w3 & Hup & _).
  unfold PromiseChain.migrationsUp_, PromiseChain.Promise_each in Hup.
  apply bind_ok_inv in Hup as ([] & w4 & Hloop & _).
  destruct P; [done|]. cbn [Migrator.for_of] in Hloop.
  apply bind_ok_inv in Hloop as ([] & w5 & Hm & _).
  apply bind_ok_inv in Hm as ([] & w6 & Hm & _).
  apply bind_ok_inv in Hm as (p & w7 & Hm & _).
  by rewrite chain_parse_throws in Hm.
Qed.

End Chain.

(** C9 fails on the code.  On a directory with pending migrations
    [Migrator.js] applies them and fulfils with their names.  The
    promise-chain file rejects: with the built-in [Promise] at
    [.spread] in [pending], with Bluebird at the undeclared [readFile] in
    [parseMigration_]; either way nothing is applied. *)
Theorem implementations_differ :
  let w := Sample.world_of Sample.three Sample.accept_all Sample.empty_db in
  fst (Migrator.up Sample.this w)
  = Ok (Some [Sample.f1; Sample.f2; Sample.f3])
  ∧ committed (snd (Migrator.up Sample.this w)) = Sample.migrated_db
  ∧ fst (PromiseChain.up Native Sample.this w)
    = Throw (TypeError "Promise.all(...).spread is not a function")
  ∧ table (committed (snd (PromiseChain.up Native Sample.this w))) = Some []
  ∧ fst (PromiseChain.up Bluebird Sample.this w)
    = Throw (ReferenceError "readFile is not defined")
  ∧ table (committed (snd (PromiseChain.up Bluebird Sample.this w)))
    = Some [].
Proof. vm_compute. done. Qed.

(** * Further properties

    Beyond the statements above: what the code itself shows about the
    splitter, the helpers and the runner. *)

(** ** The splitter *)

Local Open Scope string_scope.

Section SplitterMore.

Lemma parse_string (s : string) (dv : jsval) :
  s ≠ "" →
  migrationSqlParse (JStr s) dv
  = if (0 <=? indexOf s (delimiter_used dv))%Z then
      Ok {| up := substr s 0 (indexOf s (delimiter_used dv));
            down := Some (substr_from s (indexOf s (delimiter_used dv))) |}
    else Ok {| up := s; down := None |}.
Proof.
  intros Hs. unfold migrationSqlParse, delimiter_used.
  by rewrite (truthy_nonempty s Hs).
Qed.

Lemma delimiter_used_string (d : string) :
  d ≠ "" → delimiter_used (JStr d) = d.
Proof. intros Hd. unfold delimiter_used. by rewrite (truthy_nonempty d Hd). Qed.

Lemma parse_ok_string (v dv : jsval) (p : payload) :
  migrationSqlParse v dv = Ok p → ∃ s, v = JStr s ∧ s ≠ "".
Proof.
  unfold migrationSqlParse. destruct v as [| |[]|s]; try done.
  destruct (decide (s = "")) as [->|Hs]; [done|]. eauto.
Qed.

(** The two shapes of a result. *)
Lemma parse_cases (s : string) (dv : jsval) (p : payload) :
  migrationSqlParse (JStr s) dv = Ok p →
  (index_of (delimiter_used dv) s = None ∧ p = {| up := s; down := None |})
  ∨ ∃ a b, s = a ++ delimiter_used dv ++ b
           ∧ index_of (delimiter_used dv) s = Some (String.length a)
           ∧ p = {| up := a; down := Some (delimiter_used dv ++ b) |}.
Proof.
  intros H. pose proof (parse_ok_string _ _ _ H) as (s' & [= <-] & Hs).
  rewrite (parse_string s dv Hs) in H.
  destruct (index_of (delimiter_used dv) s) as [k|] eqn:E.
  - right. destruct (index_of_split _ _ _ E) as (a & b & Hab & Hk).
    exists a, b. subst k. split_and!; [done..|].
    rewrite (split_at s _ a b Hab E) in H. by injection H as <-.
  - left. split; [done|]. unfold indexOf in H. rewrite E in H.
    cbn in H. by injection H as <-.
Qed.

(** No occurrence of a non-empty [d] lies wholly before its first one. *)
Lemma index_of_before_first (d a b : string) :
  d ≠ "" →
  index_of d (a ++ d ++ b) = Some (String.length a) →
  index_of d a = None.
Proof.
  intros Hd Hi. destruct (index_of d a) as [q|] eqn:E; [exfalso|done].
  destruct (index_of_split _ _ _ E) as (a' & b' & -> & _).
  destruct (index_of_bound d a' (b' ++ d ++ b)) as (k & Hk & Hle).
  rewrite <- !append_assoc in Hi. rewrite Hk in Hi. injection Hi as ->.
  rewrite !length_append in Hle. destruct d; [done | simpl in Hle; lia].
Qed.

Lemma prefix_refl (d : string) : String.prefix d d = true.
Proof.
  induction d as [|c d IH]; [done|]. rewrite prefix_cons. by case_decide.
Qed.

End SplitterMore.

(** X1: the splitter fulfils exactly on non-empty strings: every other
    first argument (absent, [null], a boolean, the empty string) makes it
    throw, whatever the delimiter. *)
Theorem split_accepts_nonempty_strings (v dv : jsval) :
  (∃ p, migrationSqlParse v dv = Ok p) ↔ (∃ s, v = JStr s ∧ s ≠ "").
Proof.
  split.
  - intros [p H]. by eapply parse_ok_string.
  - intros (s & -> & Hs). rewrite (parse_string s dv Hs).
    destruct (0 <=? _)%Z; eauto.
Qed.

(** X2: a split loses nothing: [up] followed by [down] (when there is
    one) is the text that was given, for every delimiter value. *)
Theorem split_rejoin (s : string) (dv : jsval) (p : payload) :
  migrationSqlParse (JStr s) dv = Ok p → rejoin p = s.
Proof.
  intros [[_ ->] | (a & b & -> & _ & ->)]%parse_cases; unfold rejoin; cbn.
  - induction s as [|c s IH]; [done|]. by rewrite append_cons, IH.
  - done.
Qed.

Lemma split_rejoin_witness :
  rejoin {| up := "create table t ()";
            down := Some (kDefaultDelimiter ++ "drop table t") |}
  = "create table t ()" ++ kDefaultDelimiter ++ "drop table t".
Proof.
  apply (split_rejoin _ JUndefined). reflexivity.
Defined.

(** X3: with an explicit non-empty delimiter [d], [down] is [null]
    exactly when the text does not contain [d], and then [up] is the whole
    text; otherwise [down] starts with [d]; and in both cases [up] does
    not contain [d]. *)
Theorem split_sections (s d : string) (p : payload) :
  d ≠ "" →
  migrationSqlParse (JStr s) (JStr d) = Ok p →
  indexOf (up p) d = (-1)%Z
  ∧ (down p = None ↔ indexOf s d = (-1)%Z)
  ∧ (down p = None → up p = s)
  ∧ (∀ sql, down p = Some sql → ∃ rest, sql = d ++ rest).
Proof.
  intros Hd H. apply parse_cases in H. rewrite (delimiter_used_string d Hd) in H.
  unfold indexOf.
  destruct H as [[E ->] | (a & b & -> & E & ->)]; cbn [up down]; rewrite E.
  - split_and!; [done | done | done | done].
  - rewrite (index_of_before_first d a b Hd E).
    split_and!; [done | split; [done | lia] | done |].
    intros sql [= <-]. by exists b.
Qed.

Lemma split_sections_witness :
  indexOf "create table t ()" kDefaultDelimiter = (-1)%Z.
Proof.
  assert (kDefaultDelimiter ≠ "") as Hd by discriminate.
  apply (split_sections
           ("create table t ()" ++ kDefaultDelimiter ++ "drop table t")
           kDefaultDelimiter
           {| up := "create table t ()";
              down := Some (kDefaultDelimiter ++ "drop table t") |} Hd).
  reflexivity.
Defined.

(** X4: splitting the sections again with the same non-empty delimiter
    gives them back: a [down] section splits into an empty [up] and
    itself, a non-empty [up] section into itself and no [down]. *)
Theorem split_again (s d : string) (p : payload) :
  d ≠ "" →
  migrationSqlParse (JStr s) (JStr d) = Ok p →
  (∀ sql, down p = Some sql →
     migrationSqlParse (JStr sql) (JStr d)
     = Ok {| up := ""; down := Some sql |})
  ∧ (up p ≠ "" →
     migrationSqlParse (JStr (up p)) (JStr d)
     = Ok {| up := up p; down := None |}).
Proof.
  intros Hd H. apply parse_cases in H. rewrite (delimiter_used_string d Hd) in H.
  split.
  - intros sql Hsql.
    destruct H as [[_ ->] | (a & b & -> & _ & ->)]; [done|].
    injection Hsql as <-.
    rewrite <- (append_nil_l (d ++ b)) at 1.
    apply split_at_join; [done|]. rewrite append_nil_l. unfold indexOf.
    by rewrite (index_of_prefix d d (prefix_refl d)).
  - intros Hup. rewrite parse_with; [|done..].
    destruct H as [[E ->] | (a & b & -> & E & ->)]; cbn [up] in *.
    + unfold indexOf. by rewrite E.
    + unfold indexOf. by rewrite (index_of_before_first d a b Hd E).
Qed.

Lemma split_again_witness :
  migrationSqlParse (JStr (kDefaultDelimiter ++ "drop table t"))
    (JStr kDefaultDelimiter)
  = Ok {| up := ""; down := Some (kDefaultDelimiter ++ "drop table t") |}.
Proof.
  assert (kDefaultDelimiter ≠ "") as Hd by discriminate.
  refine (proj1 (split_again
            ("create table t ()" ++ kDefaultDelimiter ++ "drop table t")
            kDefaultDelimiter
            {| up := "create table t ()";
               down := Some (kDefaultDelimiter ++ "drop table t") |}
            Hd _) _ _); reflexivity.
Defined.

(** ** The helpers and the constructor *)

Local Open Scope list_scope.

Section Helpers.

Lemma slice_neg {X} (n : Z) (l : list X) :
  (1 ≤ n)%Z → slice (- n) l = drop (length l - Z.to_nat n) l.
Proof.
  intros Hn. unfold slice.
  destruct (Z.ltb_spec (- n) 0) as [_|]; [|lia]. f_equal. lia.
Qed.

Lemma findAll_autocommit w rows :
  table (committed w) = Some rows →
  ∃ w', findAll None w = (Ok (to_instance <$> order_by_id rows), w')
        ∧ committed w' = committed w ∧ tx w' = tx w ∧ dir w' = dir w
        ∧ migrationFiles_ w' = migrationFiles_ w
        ∧ trace w' = trace w ++ [EvFindAll].
Proof.
  intros Ht. unfold findAll, statement, autocommit. cbn. rewrite Ht.
  eexists. split; [reflexivity|]. done.
Qed.

Lemma pattern_pieces (cs : list ascii) :
  cs = take 14 cs ++ take 1 (drop 14 cs) ++ take 4 (drop 15 cs)
       ++ take 1 (drop 19 cs)
       ++ take (length (drop 20 cs) - 4) (drop 20 cs)
       ++ drop (length (drop 20 cs) - 4) (drop 20 cs).
Proof.
  rewrite (take_drop _ (drop 20 cs)).
  rewrite <- (take_drop 14 cs) at 1. f_equal.
  rewrite <- (take_drop 1 (drop 14 cs)) at 1. f_equal. rewrite drop_drop.
  rewrite <- (take_drop 4 (drop (14 + 1) cs)) at 1. f_equal. rewrite drop_drop.
  rewrite <- (take_drop 1 (drop (14 + 1 + 4) cs)) at 1. f_equal.
  by rewrite drop_drop.
Qed.

End Helpers.


(** X6: called without a transaction on an existing ledger,
    [recentlyExecuted(amount)] fulfils with the last [max(1, amount)]
    executed entries in ascending [id] (all of them if there are fewer):
    an amount of zero or less, or none, gives the last entry.  It changes
    nothing in the database. *)
Theorem recentlyExecuted_suffix (this : migrator) (optAmount : option Z)
    (w : world) (rows : list (nat * string)) :
  table (committed w) = Some rows →
  ∃ l w',
    Migrator.recentlyExecuted this optAmount None w
    = (Ok (to_instance <$> l), w')
    ∧ l `suffix_of` order_by_id rows
    ∧ length l
      = Nat.min (Z.to_nat (Z.max 1 (default 1%Z optAmount))) (length rows)
    ∧ committed w' = committed w
    ∧ trace w' = trace w ++ [EvFindAll].
Proof.
  intros Ht. destruct (findAll_autocommit w rows Ht) as (w' & Hf & Hc & _ & _ & _ & Htr).
  set (n := Z.max 1 (default 1%Z optAmount)).
  exists (drop (length (order_by_id rows) - Z.to_nat n) (order_by_id rows)), w'.
  split_and!; [| apply suffix_drop | | done..].
  - unfold Migrator.recentlyExecuted, executed.
    eapply bind_ok_eq; [exact Hf|]. fold n. unfold ret. f_equal. f_equal.
    rewrite slice_neg by lia. by rewrite fmap_drop, length_fmap.
  - rewrite length_drop. rewrite (Permutation_length (order_by_id_perm rows)).
    lia.
Qed.

Lemma recentlyExecuted_suffix_witness :
  ∃ l w',
    Migrator.recentlyExecuted Sample.this (Some 0%Z) None
      (Sample.world_of Sample.three Sample.accept_all Sample.migrated_db)
    = (Ok (to_instance <$> l), w')
    ∧ length l = 1.
Proof.
  destruct (recentlyExecuted_suffix Sample.this (Some 0%Z)
              (Sample.world_of Sample.three Sample.accept_all
                 Sample.migrated_db)
              [(1, Sample.f1); (2, Sample.f2); (3, Sample.f3)])
    as (l & w' & Hr & _ & Hl & _); [reflexivity|].
  exists l, w'. split; [exact Hr | exact Hl].
Defined.


(** X8: the default pattern accepts exactly the names made of fourteen
    digits, an underscore, four digits, an underscore, one or more
    characters among letters, digits, underscore and dash, and the suffix
    [.sql]. *)
Theorem kDefaults_pattern_spec (x : string) :
  kDefaults_pattern x = true
  ↔ ∃ stamp number slug : list ascii,
      list_ascii_of_string x
      = stamp ++ list_ascii_of_string "_" ++ number
        ++ list_ascii_of_string "_" ++ slug ++ list_ascii_of_string ".sql"
      ∧ length stamp = 14 ∧ forallb is_digit stamp = true
      ∧ length number = 4 ∧ forallb is_digit number = true
      ∧ slug ≠ [] ∧ forallb is_slug slug = true.
Proof.
  unfold kDefaults_pattern. set (cs := list_ascii_of_string x).
  rewrite !andb_true_iff, !bool_decide_eq_true. split.
  - intros ((((((((H1 & H2) & H3) & H4) & H5) & H6) & H7) & H8) & H9).
    exists (take 14 cs), (take 4 (drop 15 cs)),
      (take (length (drop 20 cs) - 4) (drop 20 cs)).
    split_and!; try done.
    + etrans; [apply pattern_pieces|]. by rewrite H3, H6, H9.
    + intros E. rewrite E in H7. cbn in H7. lia.
  - intros (stamp & number & slug & E & L1 & D1 & L2 & D2 & Hs & D3).
    rewrite E. clear E cs.
    do 14 (destruct stamp as [|? stamp]; [done|]).
    destruct stamp; [|done].
    do 4 (destruct number as [|? number]; [done|]).
    destruct number; [|done].
    cbn [take drop app length list_ascii_of_string] in *.
    rewrite !drop_0, take_0, length_app. cbn [length].
    replace (length slug + 4 - 4) with (length slug) by lia.
    rewrite take_app_length, drop_app_length.
    split_and!; try done. destruct slug; [done | cbn; lia].
Qed.

(** ** The catalog *)

Local Open Scope list_scope.

Section Catalog.

Variable this : migrator.

Lemma elem_of_listing (d : gmap string (option string)) (x : string) :
  x ∈ listing this d ↔ is_Some (d !! x) ∧ migrationFilePattern_ this x = true.
Proof.
  unfold listing. rewrite sort_perm, list_elem_of_filter, list_elem_of_fmap.
  split.
  - intros (Hp & [y c] & -> & Hy%elem_of_map_to_list). split; [by eexists|done].
  - intros ([c Hc] & Hp). split; [done|]. exists (x, c). split; [done|].
    by apply elem_of_map_to_list.
Qed.

Lemma listing_NoDup (d : gmap string (option string)) : NoDup (listing this d).
Proof.
  unfold listing. rewrite sort_perm. apply NoDup_filter, NoDup_fst_map_to_list.
Qed.

Lemma sort_sorted (l : list string) : StronglySorted String.le (sort l).
Proof. apply StronglySorted_merge_sort; apply _. Qed.

End Catalog.

(** X9: on an instance as constructed and a directory that can be listed,
    [migrationFiles] fulfils with the entries of the directory that match
    the pattern, each once, in ascending order; it lists the directory
    once and touches neither the database nor the instance. *)
Theorem migrationFiles_sorted_matches (this : migrator) (w : world)
    (d : gmap string (option string)) :
  migrationFiles_ w = None →
  dir w = Some d →
  ∃ l w', migrationFiles this w = (Ok l, w')
    ∧ StronglySorted String.le l
    ∧ NoDup l
    ∧ (∀ x, x ∈ l ↔ is_Some (d !! x) ∧ migrationFilePattern_ this x = true)
    ∧ committed w' = committed w
    ∧ tx w' = tx w
    ∧ migrationFiles_ w' = None
    ∧ trace w' = trace w ++ [EvReaddir (migrationFilePath_ this)].
Proof.
  intros Hc Hd. eexists _, _. split; [by apply migrationFiles_ok|].
  split_and!; [apply sort_sorted | apply listing_NoDup | apply elem_of_listing
              | done..].
Qed.

Lemma migrationFiles_sorted_matches_witness :
  ∃ l w', migrationFiles Sample.this
            (Sample.world_of Sample.three Sample.accept_all Sample.empty_db)
          = (Ok l, w')
    ∧ NoDup l.
Proof.
  destruct (migrationFiles_sorted_matches Sample.this
              (Sample.world_of Sample.three Sample.accept_all Sample.empty_db)
              Sample.three)
    as (l & w' & Hr & _ & Hn & _); [reflexivity | reflexivity |].
  exists l, w'. split; [exact Hr | exact Hn].
Defined.

(** X10: called without a transaction, on an instance as constructed, a
    directory that can be listed and an existing ledger, [pending] fulfils
    with unsaved instances, one for each matching directory entry whose
    name is not in the ledger, each once, in ascending order of name; the
    database is left as it was. *)
Theorem pending_sorted_new (this : migrator) (w : world)
    (d : gmap string (option string)) (rows : list (nat * string)) :
  migrationFiles_ w = None →
  dir w = Some d →
  table (committed w) = Some rows →
  ∃ l w', Migrator.pending this None w = (Ok (build <$> l), w')
    ∧ StronglySorted String.le l
    ∧ NoDup l
    ∧ (∀ x, x ∈ l ↔ is_Some (d !! x) ∧ migrationFilePattern_ this x = true
                    ∧ x ∉ rows.*2)
    ∧ committed w' = committed w
    ∧ tx w' = tx w
    ∧ trace w' = trace w ++ [EvReaddir (migrationFilePath_ this); EvFindAll].
Proof.
  intros Hc Hd Ht.
  destruct (findAll_autocommit
              (advance (tx w) [EvReaddir (migrationFilePath_ this)] w) rows Ht)
    as (w' & Hf & Hcm & Htx & _ & _ & Htr).
  exists (sort (difference (listing this d) (order_by_id rows).*2)), w'.
  split_and!.
  - unfold Migrator.pending, promise_all2, bind.
    rewrite (migrationFiles_ok this w d Hc Hd). unfold executed. rewrite Hf.
    by rewrite names_of_instances.
  - apply sort_sorted.
  - rewrite sort_perm. apply NoDup_filter, listing_NoDup.
  - intros x. rewrite sort_perm, elem_of_difference_list, elem_of_listing.
    rewrite order_by_id_perm. tauto.
  - done.
  - done.
  - rewrite Htr. cbn. by rewrite <- (assoc_L (++)).
Qed.

Lemma pending_sorted_new_witness :
  ∃ l w', Migrator.pending Sample.this None
            (Sample.world_of Sample.three Sample.accept_all
               Sample.migrated_db)
          = (Ok (build <$> l), w')
    ∧ ∀ x, x ∈ l → x ∉ [Sample.f1; Sample.f2; Sample.f3].
Proof.
  destruct (pending_sorted_new Sample.this
              (Sample.world_of Sample.three Sample.accept_all
                 Sample.migrated_db)
              Sample.three [(1, Sample.f1); (2, Sample.f2); (3, Sample.f3)])
    as (l & w' & Hr & _ & _ & Hin & _); [reflexivity..|].
  exists l, w'. split; [exact Hr|]. intros x Hx. by apply Hin in Hx as (_ & _ & ?).
Defined.
(** ** Whole runs *)

Local Open Scope list_scope.

Section Loops.

Variable this : migrator.
Variable t : transaction.
Variable d : gmap string (option string).

Lemma up_sql_nonempty name :
  up_sql d name ≠ ""%string →
  ∃ text p, d !! name = Some (Some text)
    ∧ migrationSqlParse (JStr text) JUndefined = Ok p
    ∧ SqlParse.up p = up_sql d name.
Proof.
  unfold up_sql. destruct (d !! name) as [[text|]|]; [|done..].
  destruct (migrationSqlParse (JStr text) JUndefined) as [p|] eqn:E; [|done].
  intros _. by exists text, p.
Qed.

Lemma down_sql_nonempty name :
  down_sql d name ≠ ""%string →
  ∃ text p, d !! name = Some (Some text)
    ∧ migrationSqlParse (JStr text) JUndefined = Ok p
    ∧ SqlParse.down p = Some (down_sql d name).
Proof.
  unfold down_sql. destruct (d !! name) as [[text|]|]; [|done..].
  destruct (migrationSqlParse (JStr text) JUndefined) as [p|] eqn:E; [|done].
  destruct (SqlParse.down p) as [sql|] eqn:Ed; [|done].
  intros _. by exists text, p.
Qed.

Lemma filter_all {X} (P : X → Prop) `{!∀ x, Decision (P x)} (l : list X) :
  (∀ x, x ∈ l → P x) → filter P l = l.
Proof.
  induction l as [|x l IH]; intros Hall; [done|].
  rewrite filter_cons_True by apply Hall, list_elem_of_here.
  f_equal. apply IH. intros y Hy. by apply Hall, list_elem_of_further.
Qed.

Lemma record_ups_fields names s :
  ledger (record_ups d names s)
  = ledger s ++ zip (seq (serial s) (length names)) names
  ∧ serial (record_ups d names s) = serial s + length names
  ∧ applied (record_ups d names s) = applied s ++ (up_sql d <$> names)
  ∧ search_path (record_ups d names s) = search_path s.
Proof.
  revert s. induction names as [|n names IH]; intros s.
  - cbn. rewrite !app_nil_r. split_and!; [done | lia | done..].
  - change (record_ups d (n :: names) s)
      with (record_ups d names (record_up n (up_sql d n) s)).
    destruct (IH (record_up n (up_sql d n) s)) as (-> & -> & -> & ->).
    cbn. rewrite <- !(assoc_L (++)). split_and!; [done | lia | done..].
Qed.

Lemma record_downs_fields rs s :
  ledger (record_downs d rs s) = filter (λ r, r.1 ∉ rs.*1) (ledger s)
  ∧ serial (record_downs d rs s) = serial s
  ∧ applied (record_downs d rs s) = applied s ++ (down_sql d <$> rs.*2)
  ∧ search_path (record_downs d rs s) = search_path s.
Proof.
  revert s. induction rs as [|r rs IH]; intros s.
  - cbn. rewrite app_nil_r. split_and!; [|done..].
    symmetry. apply filter_all. intros ? ?. apply not_elem_of_nil.
  - change (record_downs d (r :: rs) s)
      with (record_downs d rs (record_down r.1 (down_sql d r.2) s)).
    destruct (IH (record_down r.1 (down_sql d r.2) s)) as (-> & -> & -> & ->).
    cbn. rewrite <- !(assoc_L (++)). split_and!; [|done..].
    rewrite list_filter_filter. apply list_filter_iff. intros y.
    cbn. rewrite not_elem_of_cons. tauto.
Qed.

Lemma set_work_over (s s' : dbstate) (x : txn) :
  savepoint x = None →
  set_work s (set_savepoint None (set_work s' x)) = set_work s x.
Proof. destruct x. cbn. by intros ->. Qed.

(** The loop of [migrationsUp_] over files that have an up section, on a
    database that executes them. *)
Lemma for_of_up_ok names w x :
  tx w = Some x → failed x = false → savepoint x = None →
  is_Some (table (work x)) → dir w = Some d →
  Forall (λ n, up_sql d n ≠ ""%string) names →
  accepts_all (accepts w) (applied (work x)) (up_sql d <$> names) = true →
  NoDup names → (∀ n, n ∈ names → n ∉ (ledger (work x)).*2) →
  Migrator.for_of (build <$> names) (λ m, Migrator.migrationUp_ this m t) w
  = (Ok tt,
     advance (Some (set_work (record_ups d names (work x)) x))
       (ups_events this d names) w).
Proof.
  revert w x. induction names as [|n names IH];
    intros w x Hx Hf Hsp [rows Ht] Hd Hall Hacc Hnd Hnew.
  - cbn. by rewrite set_work_id, advance_nil.
  - apply Forall_cons in Hall as [Hn Hall]. apply NoDup_cons in Hnd as [Hnin Hnd].
    cbn [fmap list_fmap accepts_all] in Hacc.
    apply andb_true_iff in Hacc as [Hacc1 Hacc].
    destruct (up_sql_nonempty n Hn) as (text & p & Hfile & Hp & Hup).
    cbn [fmap list_fmap Migrator.for_of].
    eapply bind_ok_eq.
    { eapply (migrationUp_ok _ _ _ _ d rows); try done; rewrite ?Hup; try done.
      specialize (Hnew n (list_elem_of_here _ _)).
      unfold ledger in Hnew. by rewrite Ht in Hnew. }
    rewrite Hup. erewrite IH; [| reflexivity | done | done | by eexists | done
                               | done | exact Hacc | done |].
    + rewrite advance_advance. cbn [work set_savepoint set_work].
      by rewrite set_work_over.
    + intros m Hm. cbn. unfold ledger. rewrite Ht. cbn.
      rewrite fmap_app, not_elem_of_app. split.
      * specialize (Hnew m (list_elem_of_further _ _ _ Hm)).
        unfold ledger in Hnew. by rewrite Ht in Hnew.
      * cbn. intros ->%list_elem_of_singleton. done.
Qed.

(** The loop of [migrationsDown_] over files that have a down section, on
    a database that executes them. *)
Lemma for_of_down_ok rs w x :
  tx w = Some x → failed x = false → savepoint x = None →
  is_Some (table (work x)) → dir w = Some d →
  Forall (λ r : nat * string, down_sql d r.2 ≠ ""%string) rs →
  accepts_all (accepts w) (applied (work x)) (down_sql d <$> rs.*2) = true →
  Migrator.for_of (to_instance <$> rs)
    (λ m, Migrator.migrationDown_ this m t) w
  = (Ok tt,
     advance (Some (set_work (record_downs d rs (work x)) x))
       (downs_events this d rs) w).
Proof.
  revert w x. induction rs as [|r rs IH];
    intros w x Hx Hf Hsp [rows Ht] Hd Hall Hacc.
  - cbn. by rewrite set_work_id, advance_nil.
  - apply Forall_cons in Hall as [Hn Hall].
    cbn [fmap list_fmap accepts_all] in Hacc.
    apply andb_true_iff in Hacc as [Hacc1 Hacc].
    destruct (down_sql_nonempty r.2 Hn) as (text & p & Hfile & Hp & Hdn).
    cbn [fmap list_fmap Migrator.for_of].
    eapply bind_ok_eq; [by eapply (migrationDown_ok _ _ _ _ d rows)|].
    erewrite IH; [| reflexivity | done | done | by eexists | done | done
                  | exact Hacc].
    rewrite advance_advance. cbn [work set_savepoint set_work].
    by rewrite set_work_over.
Qed.

End Loops.

Section LoopFailures.

Variable this : migrator.
Variable t : transaction.
Variable d : gmap string (option string).

Lemma for_of_app {A} (l1 l2 : list A) (body : A → M unit) w :
  Migrator.for_of (l1 ++ l2) body w
  = bind (Migrator.for_of l1 body) (λ _, Migrator.for_of l2 body) w.
Proof.
  revert w. induction l1 as [|a l1 IH]; intros w; [done|].
  cbn [app Migrator.for_of]. unfold bind.
  destruct (body a w) as [[[]|e] w1]; [|done]. rewrite IH. done.
Qed.

(** A file without SQL to apply: the loop body rejects after the read,
    before any statement. *)
Lemma migrationUp_missing name w :
  dir w = Some d → up_sql d name = ""%string →
  Migrator.migrationUp_ this (build name) t w
  = (Throw (up_failure this d name),
     log (EvReadFile (resolve (migrationFilePath_ this) name)) w).
Proof.
  intros Hd. unfold up_sql, up_failure, Migrator.migrationUp_,
    Migrator.parseMigration_, readFile, bind, lift. cbn. rewrite Hd.
  destruct (d !! name) as [[text|]|]; [|done..].
  destruct (migrationSqlParse (JStr text) JUndefined) as [p|e]; [|done].
  by intros ->.
Qed.

Lemma migrationDown_missing r w :
  dir w = Some d → down_sql d r.2 = ""%string →
  Migrator.migrationDown_ this (to_instance r) t w
  = (Throw (down_failure this d r.2),
     log (EvReadFile (resolve (migrationFilePath_ this) r.2)) w).
Proof.
  intros Hd. unfold down_sql, down_failure, Migrator.migrationDown_,
    Migrator.parseMigration_, readFile, bind, lift. cbn. rewrite Hd.
  destruct (d !! r.2) as [[text|]|]; [|done..].
  destruct (migrationSqlParse (JStr text) JUndefined) as [p|e]; [|done].
  cbn. destruct (SqlParse.down p) as [s|]; [|done]. cbn. by intros ->.
Qed.

Lemma log_advance x evs ev w :
  log ev (advance x evs w) = advance x (evs ++ [ev]) w.
Proof. unfold log, advance. cbn. by rewrite <- (assoc_L (++)). Qed.

(** The loop of [migrationsUp_] when the database refuses the SQL of [m],
    after the files [l1] have gone through. *)
Lemma for_of_up_refused l1 m l2 w x :
  tx w = Some x → failed x = false → savepoint x = None →
  is_Some (table (work x)) → dir w = Some d →
  Forall (λ n, up_sql d n ≠ ""%string) l1 →
  up_sql d m ≠ ""%string →
  accepts_all (accepts w) (applied (work x)) (up_sql d <$> l1) = true →
  accepts w (applied (work x) ++ (up_sql d <$> l1)) (up_sql d m) = false →
  NoDup l1 → (∀ n, n ∈ l1 → n ∉ (ledger (work x)).*2) →
  Migrator.for_of (build <$> (l1 ++ m :: l2))
    (λ m, Migrator.migrationUp_ this m t) w
  = (Throw (DatabaseError (up_sql d m)),
     set_committed (record_ups d l1 (work x))
       (advance None
          (ups_events this d l1 ++ refused_events this m (up_sql d m)) w)).
Proof.
  intros Hx Hf Hsp Ht Hd Hall Hm Hacc Href Hnd Hnew.
  rewrite fmap_app, for_of_app.
  eapply bind_ok_eq; [by eapply (for_of_up_ok this t d l1)|].
  cbn [fmap list_fmap Migrator.for_of]. apply bind_throw.
  destruct (up_sql_nonempty d m Hm) as (text & p & Hfile & Hp & Hup).
  rewrite <- Hup in *.
  erewrite (migrationUp_refused _ _ _ _ d);
    [| reflexivity | done | done | done | done | done |].
  - by rewrite advance_advance.
  - cbn [work set_work].
    destruct (record_ups_fields d l1 (work x)) as (_ & _ & -> & _). done.
Qed.

(** The loop of [migrationsUp_] when the file [m] gives no SQL to apply,
    after the files [l1] have gone through. *)
Lemma for_of_up_missing l1 m l2 w x :
  tx w = Some x → failed x = false → savepoint x = None →
  is_Some (table (work x)) → dir w = Some d →
  Forall (λ n, up_sql d n ≠ ""%string) l1 →
  up_sql d m = ""%string →
  accepts_all (accepts w) (applied (work x)) (up_sql d <$> l1) = true →
  NoDup l1 → (∀ n, n ∈ l1 → n ∉ (ledger (work x)).*2) →
  Migrator.for_of (build <$> (l1 ++ m :: l2))
    (λ m, Migrator.migrationUp_ this m t) w
  = (Throw (up_failure this d m),
     advance (Some (set_work (record_ups d l1 (work x)) x))
       (ups_events this d l1
        ++ [EvReadFile (resolve (migrationFilePath_ this) m)]) w).
Proof.
  intros Hx Hf Hsp Ht Hd Hall Hm Hacc Hnd Hnew.
  rewrite fmap_app, for_of_app.
  eapply bind_ok_eq; [by eapply (for_of_up_ok this t d l1)|].
  cbn [fmap list_fmap Migrator.for_of]. apply bind_throw.
  rewrite migrationUp_missing; [| done | done]. by rewrite log_advance.
Qed.

(** One revert whose SQL the database refuses. *)
Lemma migrationDown_refused w x id name sql p down_sql :
  tx w = Some x → failed x = false →
  dir w = Some d → d !! name = Some (Some sql) →
  migrationSqlParse (JStr sql) JUndefined = Ok p →
  SqlParse.down p = Some down_sql → down_sql ≠ ""%string →
  accepts w (applied (work x)) down_sql = false →
  Migrator.migrationDown_ this {| inst_id := Some id; inst_name := name |}
    t w
  = (Throw (DatabaseError down_sql),
     set_committed (work x)
       (advance None (refused_events this name down_sql) w)).
Proof.
  intros Hx Hf Hd Hn Hp Hs Hu Ha. unfold Migrator.migrationDown_.
  erewrite bind_ok; [| by eapply parseMigration_ok].
  rewrite Hs. cbn [of_section ToString].
  rewrite (truthy_nonempty _ Hu). cbn [negb].
  erewrite bind_ok; [| eapply savePoint_ok; [by rewrite <- Hx | done]].
  erewrite bind_throw; [reflexivity|].
  erewrite try_throw; [| eapply query_refused; [reflexivity | done | exact Ha]].
  erewrite bind_ok; last first.
  { eapply rollbackToSavePoint_ok; reflexivity. }
  erewrite bind_ok; [| eapply commit_ok; reflexivity].
  unfold throw. rewrite !advance_advance.
  cbn [work set_failed set_work set_savepoint].
  unfold restore. rewrite set_serial_id. reflexivity.
Qed.

(** The same for [migrationsDown_]. *)
Lemma for_of_down_refused l1 r l2 w x :
  tx w = Some x → failed x = false → savepoint x = None →
  is_Some (table (work x)) → dir w = Some d →
  Forall (λ r : nat * string, down_sql d r.2 ≠ ""%string) l1 →
  down_sql d r.2 ≠ ""%string →
  accepts_all (accepts w) (applied (work x)) (down_sql d <$> l1.*2) = true →
  accepts w (applied (work x) ++ (down_sql d <$> l1.*2)) (down_sql d r.2)
  = false →
  Migrator.for_of (to_instance <$> (l1 ++ r :: l2))
    (λ m, Migrator.migrationDown_ this m t) w
  = (Throw (DatabaseError (down_sql d r.2)),
     set_committed (record_downs d l1 (work x))
       (advance None
          (downs_events this d l1
           ++ refused_events this r.2 (down_sql d r.2)) w)).
Proof.
  intros Hx Hf Hsp Ht Hd Hall Hm Hacc Href.
  rewrite fmap_app, for_of_app.
  eapply bind_ok_eq; [by eapply (for_of_down_ok this t d l1)|].
  cbn [fmap list_fmap Migrator.for_of]. apply bind_throw.
  destruct (down_sql_nonempty d r.2 Hm) as (text & p & Hfile & Hp & Hdn).
  erewrite (migrationDown_refused _ _ r.1 r.2);
    [| reflexivity | done | done | done | done | done | done |].
  - by rewrite advance_advance.
  - cbn [work set_work].
    destruct (record_downs_fields d l1 (work x)) as (_ & _ & -> & _). done.
Qed.

Lemma for_of_down_missing l1 r l2 w x :
  tx w = Some x → failed x = false → savepoint x = None →
  is_Some (table (work x)) → dir w = Some d →
  Forall (λ r : nat * string, down_sql d r.2 ≠ ""%string) l1 →
  down_sql d r.2 = ""%string →
  accepts_all (accepts w) (applied (work x)) (down_sql d <$> l1.*2) = true →
  Migrator.for_of (to_instance <$> (l1 ++ r :: l2))
    (λ m, Migrator.migrationDown_ this m t) w
  = (Throw (down_failure this d r.2),
     advance (Some (set_work (record_downs d l1 (work x)) x))
       (downs_events this d l1
        ++ [EvReadFile (resolve (migrationFilePath_ this) r.2)]) w).
Proof.
  intros Hx Hf Hsp Ht Hd Hall Hm Hacc.
  rewrite fmap_app, for_of_app.
  eapply bind_ok_eq; [by eapply (for_of_down_ok this t d l1)|].
  cbn [fmap list_fmap Migrator.for_of]. apply bind_throw.
  rewrite migrationDown_missing; [| done | done]. by rewrite log_advance.
Qed.

End LoopFailures.
Local Open Scope list_scope.

Lemma names_of_built (names : list string) :
  inst_name <$> (build <$> names) = names.
Proof. rewrite <- list_fmap_compose. by rewrite list_fmap_id. Qed.

(** X11: when some migrations are pending, each of their files has an up
    section and the database executes these sections one after the other,
    [up] fulfils with the pending names in sorted order; it has appended
    one ledger row per name, in this order and with consecutive ids, and
    the up SQL of each to the statements in effect; it has sent nothing
    but the prelude, the listing, the search path statements, the five
    steps of each migration and the commit; it leaves no transaction open,
    [searchPath_] at null and, unless the session's search path was the
    empty string, the search path as it was. *)
Theorem up_applies_pending (this : migrator) (w : world)
    (d : gmap string (option string)) :
  tx w = None →
  migrationFiles_ w = None →
  dir w = Some d →
  pending_names this d (committed w) ≠ [] →
  Forall (λ n, up_sql d n ≠ ""%string) (pending_names this d (committed w)) →
  accepts_all (accepts w) (applied (committed w))
    (up_sql d <$> pending_names this d (committed w)) = true →
  ∃ w', Migrator.up this w
        = (Ok (Some (pending_names this d (committed w))), w')
    ∧ ledger (committed w')
      = ledger (committed w)
        ++ zip (seq (serial (committed w))
                  (length (pending_names this d (committed w))))
             (pending_names this d (committed w))
    ∧ applied (committed w')
      = applied (committed w)
        ++ (up_sql d <$> pending_names this d (committed w))
    ∧ (search_path (committed w) ≠ ""%string →
       search_path (committed w') = search_path (committed w))
    ∧ searchPath_ w' = None
    ∧ tx w' = None
    ∧ trace w'
      = trace w ++ prelude_events this
        ++ [EvReaddir (migrationFilePath_ this); EvFindAll;
            EvQuery "SHOW search_path"]
        ++ set_path_events (schema_ this)
        ++ ups_events this d (pending_names this d (committed w))
        ++ set_path_events (search_path (committed w))
        ++ [EvCommit].
Proof.
  intros Htx Hmf Hdir Hne Hall Hacc.
  set (ms := pending_names this d (committed w)) in *.
  assert (∀ n, n ∈ ms → n ∉ (ledger (committed w)).*2) as Hfresh.
  { intros n Hn. by eapply (elem_of_pending_names this d). }
  pose proof (pending_names_NoDup this d (committed w)) as Hnd.
  fold ms in Hnd.
  assert ((length (build <$> ms) =? 0)%nat = false) as Hlen.
  { rewrite length_fmap. apply Nat.eqb_neq. by destruct ms. }
  destruct (truthy (JStr (schema_ this))) eqn:Hs;
    destruct (truthy (JStr (search_path (committed w)))) eqn:Ho.
  all: eexists; split.
  1,3,5,7: unfold Migrator.up;
    (eapply bind_ok_eq; [apply sync_run|]);
    (rewrite transaction_begin; [|done]);
    eapply try_ok;
    (eapply bind_ok_eq;
     [ (eapply bind_ok_eq; [eapply lockTable_ok; reflexivity|]);
       (eapply bind_ok_eq;
        [eapply (pending_ok _ _ _ _ d);
         [reflexivity | done | reflexivity | done | done]|]);
       fold (pending_names this d (committed w)); fold ms; rewrite Hlen;
       eapply try_ok;
       (eapply bind_ok_eq; [eapply saveSearchPath_ok; reflexivity|]);
       (eapply bind_ok_eq; [eapply setSearchPath_run; reflexivity|]);
       rewrite Hs;
       (eapply bind_ok_eq;
        [ unfold Migrator.migrationsUp_;
          (eapply bind_ok_eq; [|reflexivity]);
          eapply (for_of_up_ok this Transaction d ms);
          [ reflexivity | reflexivity | reflexivity | by eexists | done
          | done | exact Hacc | done | exact Hfresh ] |]);
       (eapply bind_ok_eq; [reflexivity|]);
       (eapply bind_ok_eq; [eapply setSearchPath_run; reflexivity|]);
       cbn [search_path work set_locked fresh_txn committed set_committed
            synced set_table set_work];
       rewrite Ho, names_of_built;
       reflexivity
     | eapply bind_ok_eq; [eapply commit_ok; reflexivity | reflexivity] ]).
  all: unfold set_path_events; rewrite ?Hs, ?Ho; cbn;
    destruct (record_ups_fields d ms (synced (committed w)))
      as (Hl & _ & Ha & Hp);
    destruct (record_ups_fields d ms
                (set_search_path (schema_ this) (synced (committed w))))
      as (Hl' & _ & Ha' & Hp').
  all: repeat match goal with
       | |- context [default [] (table ?s)] =>
           change (default [] (table s)) with (ledger s)
       end;
    rewrite ?Hl, ?Hl', ?Ha, ?Ha', ?Hp, ?Hp'; cbn;
    split_and!;
    [ done | done
    | first [ done | intros Hn; by rewrite (truthy_nonempty _ Hn) in Ho ]
    | done | done
    | by rewrite ?app_nil_r, <- !(assoc_L (++)) ].
Qed.


Lemma up_applies_pending_witness :
  ∃ w', Migrator.up Sample.this
          (Sample.world_of Sample.three Sample.accept_all Sample.empty_db)
        = (Ok (Some [Sample.f1; Sample.f2; Sample.f3]), w')
    ∧ ledger (committed w')
      = [(1, Sample.f1); (2, Sample.f2); (3, Sample.f3)]
    ∧ search_path (committed w') = "app, public"%string
    ∧ tx w' = None.
Proof.
  destruct (up_applies_pending Sample.this
              (Sample.world_of Sample.three Sample.accept_all Sample.empty_db)
              Sample.three)
    as (w' & Hrun & Hl & _ & Hp & _ & Htx & _);
    [ reflexivity | reflexivity | reflexivity | by vm_compute
    | vm_compute; repeat constructor; discriminate | by vm_compute | ].
  exists w'. split_and!; [exact Hrun | exact Hl | by apply Hp | exact Htx].
Defined.

(** X12: when the database refuses the up SQL of a pending migration [m],
    after the pending migrations [l1] before it have gone through, [up]
    rejects with the database's error for that SQL; the rows and the
    statements of [l1], and nothing of [m] or of the migrations [l2] after
    it, are committed; no transaction is left open; the session keeps the
    search path that [up] had set and [searchPath_] the snapshot; the run
    ends with the rollback to the savepoint and the commit. *)
Theorem up_refused_keeps_earlier (this : migrator) (w : world)
    (d : gmap string (option string)) (l1 l2 : list string) (m : string) :
  tx w = None →
  migrationFiles_ w = None →
  dir w = Some d →
  pending_names this d (committed w) = l1 ++ m :: l2 →
  Forall (λ n, up_sql d n ≠ ""%string) l1 →
  up_sql d m ≠ ""%string →
  accepts_all (accepts w) (applied (committed w)) (up_sql d <$> l1) = true →
  accepts w (applied (committed w) ++ (up_sql d <$> l1)) (up_sql d m)
  = false →
  ∃ w', Migrator.up this w = (Throw (DatabaseError (up_sql d m)), w')
    ∧ ledger (committed w')
      = ledger (committed w)
        ++ zip (seq (serial (committed w)) (length l1)) l1
    ∧ applied (committed w') = applied (committed w) ++ (up_sql d <$> l1)
    ∧ search_path (committed w')
      = (if truthy (JStr (schema_ this)) then schema_ this
         else search_path (committed w))
    ∧ searchPath_ w' = Some (search_path (committed w))
    ∧ tx w' = None
    ∧ trace w'
      = trace w ++ prelude_events this
        ++ [EvReaddir (migrationFilePath_ this); EvFindAll;
            EvQuery "SHOW search_path"]
        ++ set_path_events (schema_ this)
        ++ ups_events this d l1
        ++ refused_events this m (up_sql d m).
Proof.
  intros Htx Hmf Hdir Hp Hall Hm Hacc Href.
  assert (∀ n, n ∈ l1 → n ∉ (ledger (committed w)).*2) as Hfresh.
  { intros n Hn. eapply (elem_of_pending_names this d).
    rewrite Hp, elem_of_app. by left. }
  pose proof (pending_names_NoDup this d (committed w)) as Hnd.
  rewrite Hp in Hnd. apply NoDup_app in Hnd as (Hnd & _ & _).
  assert ((length (build <$> l1 ++ m :: l2) =? 0)%nat = false) as Hlen.
  { rewrite length_fmap, length_app. apply Nat.eqb_neq. cbn. lia. }
  destruct (truthy (JStr (schema_ this))) eqn:Hs.
  all: eexists; split.
  1,3: unfold Migrator.up;
    (eapply bind_ok_eq; [apply sync_run|]);
    (rewrite transaction_begin; [|done]);
    (eapply try_throw_eq;
     [ apply bind_throw;
       (eapply bind_ok_eq; [eapply lockTable_ok; reflexivity|]);
       (eapply bind_ok_eq;
        [eapply (pending_ok _ _ _ _ d);
         [reflexivity | done | reflexivity | done | done]|]);
       fold (pending_names this d (committed w)); rewrite Hp, Hlen;
       (eapply try_throw_eq;
        [ (eapply bind_ok_eq; [eapply saveSearchPath_ok; reflexivity|]);
          (eapply bind_ok_eq; [eapply setSearchPath_run; reflexivity|]);
          rewrite Hs;
          apply bind_throw; unfold Migrator.migrationsUp_;
          apply bind_throw;
          eapply (for_of_up_refused this Transaction d l1 m l2);
          [ reflexivity | reflexivity | reflexivity | by eexists | done
          | done | done | exact Hacc | exact Href | done | exact Hfresh ]
        | reflexivity ])
     | reflexivity ]).
  all: unfold set_path_events; rewrite ?Hs; cbn;
    destruct (record_ups_fields d l1 (synced (committed w)))
      as (Hl & _ & Ha & Hq);
    destruct (record_ups_fields d l1
                (set_search_path (schema_ this) (synced (committed w))))
      as (Hl' & _ & Ha' & Hq').
  all: repeat match goal with
       | |- context [default [] (table ?s)] =>
           change (default [] (table s)) with (ledger s)
       end;
    rewrite ?Hl, ?Hl', ?Ha, ?Ha', ?Hq, ?Hq'; cbn;
    split_and!;
    [ done | done | done | done | done
    | by rewrite ?app_nil_r, <- !(assoc_L (++)) ].
Qed.

Lemma up_refused_keeps_earlier_witness :
  ∃ w', Migrator.up Sample.this
          (Sample.world_of Sample.three Sample.refuse_posts Sample.empty_db)
        = (Throw (DatabaseError "create table posts (id serial)"), w')
    ∧ ledger (committed w') = [(1, Sample.f1)]
    ∧ search_path (committed w') = "public"%string
    ∧ tx w' = None.
Proof.
  destruct (up_refused_keeps_earlier Sample.this
              (Sample.world_of Sample.three Sample.refuse_posts
                 Sample.empty_db)
              Sample.three [Sample.f1] [Sample.f3] Sample.f2)
    as (w' & Hrun & Hl & _ & Hp & _ & Htx & _);
    [ reflexivity | reflexivity | reflexivity | by vm_compute
    | vm_compute; repeat constructor; discriminate | by vm_compute
    | by vm_compute | by vm_compute | ].
  exists w'. split_and!; [exact Hrun | exact Hl | exact Hp | exact Htx].
Defined.

(** X13: when a pending migration [m] gives no SQL to apply (its file
    cannot be read, is empty, or has an empty up section), after the
    pending migrations [l1] before it have gone through, [up] rejects with
    the error of the read, of the splitter or of the missing SQL, and the
    whole transaction is rolled back: the ledger, the statements in effect
    and the search path are as before the call, the work on [l1] is lost
    (only the id sequence has moved on); no transaction is left open,
    [searchPath_] keeps the snapshot, and the run ends with the read of
    the file and a rollback. *)
Theorem up_missing_sql_rolls_back (this : migrator) (w : world)
    (d : gmap string (option string)) (l1 l2 : list string) (m : string) :
  tx w = None →
  migrationFiles_ w = None →
  dir w = Some d →
  pending_names this d (committed w) = l1 ++ m :: l2 →
  Forall (λ n, up_sql d n ≠ ""%string) l1 →
  up_sql d m = ""%string →
  accepts_all (accepts w) (applied (committed w)) (up_sql d <$> l1) = true →
  ∃ w', Migrator.up this w = (Throw (up_failure this d m), w')
    ∧ ledger (committed w') = ledger (committed w)
    ∧ applied (committed w') = applied (committed w)
    ∧ search_path (committed w') = search_path (committed w)
    ∧ serial (committed w') = serial (committed w) + length l1
    ∧ searchPath_ w' = Some (search_path (committed w))
    ∧ tx w' = None
    ∧ trace w'
      = trace w ++ prelude_events this
        ++ [EvReaddir (migrationFilePath_ this); EvFindAll;
            EvQuery "SHOW search_path"]
        ++ set_path_events (schema_ this)
        ++ ups_events this d l1
        ++ [EvReadFile (resolve (migrationFilePath_ this) m); EvRollback].
Proof.
  intros Htx Hmf Hdir Hp Hall Hm Hacc.
  assert (∀ n, n ∈ l1 → n ∉ (ledger (committed w)).*2) as Hfresh.
  { intros n Hn. eapply (elem_of_pending_names this d).
    rewrite Hp, elem_of_app. by left. }
  pose proof (pending_names_NoDup this d (committed w)) as Hnd.
  rewrite Hp in Hnd. apply NoDup_app in Hnd as (Hnd & _ & _).
  assert ((length (build <$> l1 ++ m :: l2) =? 0)%nat = false) as Hlen.
  { rewrite length_fmap, length_app. apply Nat.eqb_neq. cbn. lia. }
  destruct (truthy (JStr (schema_ this))) eqn:Hs.
  all: eexists; split.
  1,3: unfold Migrator.up;
    (eapply bind_ok_eq; [apply sync_run|]);
    (rewrite transaction_begin; [|done]);
    (eapply try_throw_eq;
     [ apply bind_throw;
       (eapply bind_ok_eq; [eapply lockTable_ok; reflexivity|]);
       (eapply bind_ok_eq;
        [eapply (pending_ok _ _ _ _ d);
         [reflexivity | done | reflexivity | done | done]|]);
       fold (pending_names this d (committed w)); rewrite Hp, Hlen;
       (eapply try_throw_eq;
        [ (eapply bind_ok_eq; [eapply saveSearchPath_ok; reflexivity|]);
          (eapply bind_ok_eq; [eapply setSearchPath_run; reflexivity|]);
          rewrite Hs;
          apply bind_throw; unfold Migrator.migrationsUp_;
          apply bind_throw;
          eapply (for_of_up_missing this Transaction d l1 m l2);
          [ reflexivity | reflexivity | reflexivity | by eexists | done
          | done | done | exact Hacc | done | exact Hfresh ]
        | reflexivity ])
     | reflexivity ]).
  all: unfold set_path_events; rewrite ?Hs; cbn;
    destruct (record_ups_fields d l1 (synced (committed w)))
      as (Hl & Hn & Ha & Hq);
    destruct (record_ups_fields d l1
                (set_search_path (schema_ this) (synced (committed w))))
      as (Hl' & Hn' & Ha' & Hq').
  all: rewrite ?Hn, ?Hn'; cbn;
    split_and!;
    [ done | done | done | done | done | done
    | by rewrite ?app_nil_r, <- !(assoc_L (++)) ].
Qed.

Lemma up_missing_sql_rolls_back_witness :
  ∃ w', Migrator.up Sample.this
          (Sample.world_of Sample.second_without_up Sample.accept_all
             Sample.empty_db)
        = (Throw (Error ("cannot run migration, " +:+ Sample.f2
                         +:+ ": missing 'up' SQL")), w')
    ∧ ledger (committed w') = []
    ∧ applied (committed w') = []
    ∧ tx w' = None.
Proof.
  destruct (up_missing_sql_rolls_back Sample.this
              (Sample.world_of Sample.second_without_up Sample.accept_all
                 Sample.empty_db)
              Sample.second_without_up [Sample.f1] [Sample.f3] Sample.f2)
    as (w' & Hrun & Hl & Ha & _ & _ & _ & Htx & _);
    [ reflexivity | reflexivity | reflexivity | by vm_compute
    | vm_compute; repeat constructor; discriminate | by vm_compute
    | by vm_compute | ].
  exists w'. split_and!; [exact Hrun | exact Hl | exact Ha | exact Htx].
Defined.
Local Open Scope list_scope.

Section Reverts.

Variable this : migrator.
Variable t : transaction.

Lemma slice_suffix {X} (n : Z) (older recent : list X) :
  length recent
  = Nat.min (Z.to_nat (Z.max 1 n)) (length (older ++ recent)) →
  slice (- Z.max 1 n) (older ++ recent) = recent.
Proof.
  intros Hlen. rewrite slice_neg by lia. rewrite length_app in *.
  destruct (decide (length older = 0)) as [E|E].
  - apply nil_length_inv in E as ->. cbn in *.
    replace (length recent - _) with 0 by lia. done.
  - replace (length older + length recent - Z.to_nat (Z.max 1 n))
      with (length older) by lia.
    by rewrite drop_app_length.
Qed.

Lemma slice_fmap {X Y} (f : X → Y) (k : Z) (l : list X) :
  slice k (f <$> l) = f <$> slice k l.
Proof. unfold slice. by rewrite length_fmap, fmap_drop. Qed.

(** [recentlyExecuted] inside a transaction, on a ledger whose rows in
    ascending [id] are [older ++ recent]. *)
Lemma recentlyExecuted_run w x n older recent :
  tx w = Some x → failed x = false → is_Some (table (work x)) →
  order_by_id (ledger (work x)) = older ++ recent →
  length recent
  = Nat.min (Z.to_nat (Z.max 1 n)) (length (ledger (work x))) →
  Migrator.recentlyExecuted this (Some n) (Some t) w
  = (Ok (to_instance <$> recent), advance (Some x) [EvFindAll] w).
Proof.
  intros Hx Hf [rows Ht] Hord Hlen. unfold Migrator.recentlyExecuted, executed.
  eapply bind_ok_eq; [by eapply findAll_ok|].
  rewrite (ledger_table _ _ Ht) in *. rewrite Hord. cbn [default].
  unfold ret. f_equal. f_equal. rewrite slice_fmap. f_equal.
  apply slice_suffix.
  by rewrite <- Hord, (Permutation_length (order_by_id_perm rows)).
Qed.

Lemma filter_not_in_reverse (l : list (nat * string)) (rows : list (nat * string)) :
  filter (λ r : nat * string, r.1 ∉ (reverse l).*1) rows
  = filter (λ r : nat * string, r.1 ∉ l.*1) rows.
Proof.
  apply list_filter_iff. intros r. by rewrite fmap_reverse, elem_of_reverse.
Qed.

End Reverts.

(** X14: [down(amount)] on a ledger whose rows in ascending [id] are
    [older ++ recent], where [recent] has [max(1, amount)] rows (or is the
    whole non-empty ledger, if that has fewer), each file of [recent] has a
    down section and the database executes these sections from the most
    recent row backwards: [down] fulfils with the names of [recent], most
    recent first; it has deleted exactly the rows of [recent], appended
    their down SQL in that order to the statements in effect, and left
    the search path as it was; no transaction is left open and
    [searchPath_] is null. *)
Theorem down_reverts_recent (this : migrator) (optAmount : option Z)
    (w : world) (d : gmap string (option string))
    (older recent : list (nat * string)) :
  tx w = None →
  dir w = Some d →
  order_by_id (ledger (committed w)) = older ++ recent →
  length recent
  = Nat.min (Z.to_nat (Z.max 1 (default 1%Z optAmount)))
      (length (ledger (committed w))) →
  recent ≠ [] →
  Forall (λ r : nat * string, down_sql d r.2 ≠ ""%string) recent →
  accepts_all (accepts w) (applied (committed w))
    (down_sql d <$> (reverse recent).*2) = true →
  ∃ w', Migrator.down this optAmount w
        = (Ok (Some (reverse recent).*2), w')
    ∧ ledger (committed w')
      = filter (λ r : nat * string, r.1 ∉ recent.*1) (ledger (committed w))
    ∧ applied (committed w')
      = applied (committed w) ++ (down_sql d <$> (reverse recent).*2)
    ∧ search_path (committed w') = search_path (committed w)
    ∧ searchPath_ w' = None
    ∧ tx w' = None
    ∧ trace w'
      = trace w ++ prelude_events this
        ++ [EvFindAll; EvQuery "SHOW search_path"]
        ++ downs_events this d (reverse recent)
        ++ set_path_events (search_path (committed w))
        ++ [EvCommit].
Proof.
  intros Htx Hdir Hord Hlen Hne Hall Hacc.
  apply Forall_reverse in Hall.
  assert ((length (to_instance <$> recent) =? 0)%nat = false) as Hlen0.
  { rewrite length_fmap. apply Nat.eqb_neq. by destruct recent. }
  destruct (truthy (JStr (search_path (committed w)))) eqn:Ho.
  all: eexists; split.
  1,3: unfold Migrator.down;
    (eapply bind_ok_eq; [apply sync_run|]);
    (rewrite transaction_begin; [|done]);
    eapply try_ok;
    (eapply bind_ok_eq;
     [ (eapply bind_ok_eq; [eapply lockTable_ok; reflexivity|]);
       (eapply bind_ok_eq;
        [eapply (recentlyExecuted_run _ _ _ _ _ older recent);
         [reflexivity | reflexivity | by eexists | exact Hord | exact Hlen]|]);
       rewrite Hlen0, <- fmap_reverse;
       eapply try_ok;
       (eapply bind_ok_eq; [eapply saveSearchPath_ok; reflexivity|]);
       (eapply bind_ok_eq;
        [ unfold Migrator.migrationsDown_;
          (eapply bind_ok_eq; [|reflexivity]);
          eapply (for_of_down_ok this Transaction d (reverse recent));
          [ reflexivity | reflexivity | reflexivity | by eexists | done
          | done | exact Hacc ] |]);
       (eapply bind_ok_eq; [reflexivity|]);
       (eapply bind_ok_eq; [eapply setSearchPath_run; reflexivity|]);
       cbn [search_path work set_locked fresh_txn committed set_committed
            synced set_table set_work];
       rewrite Ho, names_of_instances;
       reflexivity
     | eapply bind_ok_eq; [eapply commit_ok; reflexivity | reflexivity] ]).
  all: unfold set_path_events; rewrite ?Ho; cbn;
    destruct (record_downs_fields d (reverse recent) (synced (committed w)))
      as (Hl & _ & Ha & Hq).
  all: repeat match goal with
       | |- context [default [] (table ?s)] =>
           change (default [] (table s)) with (ledger s)
       end;
    rewrite ?Hl, ?Ha, ?Hq, ?filter_not_in_reverse; cbn;
    split_and!;
    [ done | done | done | done | done
    | by rewrite ?app_nil_r, <- !(assoc_L (++)) ].
Qed.

Lemma down_reverts_recent_witness :
  ∃ w', Migrator.down Sample.this (Some 2%Z)
          (Sample.world_of Sample.three Sample.accept_all Sample.migrated_db)
        = (Ok (Some [Sample.f3; Sample.f2]), w')
    ∧ ledger (committed w') = [(1, Sample.f1)]
    ∧ tx w' = None.
Proof.
  destruct (down_reverts_recent Sample.this (Some 2%Z)
              (Sample.world_of Sample.three Sample.accept_all
                 Sample.migrated_db)
              Sample.three [(1, Sample.f1)]
              [(2, Sample.f2); (3, Sample.f3)])
    as (w' & Hrun & Hl & _ & _ & _ & Htx & _);
    [ reflexivity | reflexivity | by vm_compute | reflexivity | done
    | vm_compute; repeat constructor; discriminate | by vm_compute | ].
  exists w'. split_and!; [exact Hrun | | exact Htx].
  rewrite Hl. by vm_compute.
Defined.

(** X15: when a row to revert, [r], has a file that gives no SQL to run
    (it cannot be read, is empty, or has no down section), after the more
    recent rows [l1] have been reverted, [down] rejects with the error of
    the read, of the splitter or of the missing SQL, and the whole
    transaction is rolled back: the database is as [model.sync()] left it,
    the reverts of [l1] are lost; no transaction is left open,
    [searchPath_] keeps the snapshot, and the run ends with the read of
    the file and a rollback. *)
Theorem down_missing_sql_rolls_back (this : migrator) (optAmount : option Z)
    (w : world) (d : gmap string (option string))
    (older recent l1 l2 : list (nat * string)) (r : nat * string) :
  tx w = None →
  dir w = Some d →
  order_by_id (ledger (committed w)) = older ++ recent →
  length recent
  = Nat.min (Z.to_nat (Z.max 1 (default 1%Z optAmount)))
      (length (ledger (committed w))) →
  reverse recent = l1 ++ r :: l2 →
  Forall (λ r : nat * string, down_sql d r.2 ≠ ""%string) l1 →
  down_sql d r.2 = ""%string →
  accepts_all (accepts w) (applied (committed w)) (down_sql d <$> l1.*2)
  = true →
  ∃ w', Migrator.down this optAmount w
        = (Throw (down_failure this d r.2), w')
    ∧ committed w' = synced (committed w)
    ∧ searchPath_ w' = Some (search_path (committed w))
    ∧ tx w' = None
    ∧ trace w'
      = trace w ++ prelude_events this
        ++ [EvFindAll; EvQuery "SHOW search_path"]
        ++ downs_events this d l1
        ++ [EvReadFile (resolve (migrationFilePath_ this) r.2); EvRollback].
Proof.
  intros Htx Hdir Hord Hlen Hrev Hall Hm Hacc.
  assert ((length (to_instance <$> recent) =? 0)%nat = false) as Hlen0.
  { rewrite length_fmap, <- length_reverse, Hrev, length_app.
    apply Nat.eqb_neq. cbn. lia. }
  eexists; split.
  { unfold Migrator.down.
    eapply bind_ok_eq; [apply sync_run|].
    rewrite transaction_begin; [|done].
    eapply try_throw_eq;
     [ apply bind_throw;
       (eapply bind_ok_eq; [eapply lockTable_ok; reflexivity|]);
       (eapply bind_ok_eq;
        [eapply (recentlyExecuted_run _ _ _ _ _ older recent);
         [reflexivity | reflexivity | by eexists | exact Hord | exact Hlen]|]);
       rewrite Hlen0, <- fmap_reverse, Hrev;
       (eapply try_throw_eq;
        [ (eapply bind_ok_eq; [eapply saveSearchPath_ok; reflexivity|]);
          apply bind_throw; unfold Migrator.migrationsDown_;
          apply bind_throw;
          eapply (for_of_down_missing this Transaction d l1 r l2);
          [ reflexivity | reflexivity | reflexivity | by eexists | done
          | done | done | exact Hacc ]
        | reflexivity ])
     | reflexivity ]. }
  cbn. destruct (record_downs_fields d l1 (synced (committed w)))
    as (_ & Hn & _ & _).
  split_and!; [| done | done | by rewrite <- !(assoc_L (++)) ].
  unfold restore. rewrite Hn. by destruct (committed w).
Qed.

Lemma down_missing_sql_rolls_back_witness :
  ∃ w', Migrator.down Sample.this (Some 3%Z)
          (Sample.world_of Sample.first_without_down Sample.accept_all
             Sample.migrated_db)
        = (Throw (Error ("cannot run migration, " +:+ Sample.f1
                         +:+ ": missing 'down' SQL")), w')
    ∧ committed w' = Sample.migrated_db
    ∧ tx w' = None.
Proof.
  destruct (down_missing_sql_rolls_back Sample.this (Some 3%Z)
              (Sample.world_of Sample.first_without_down Sample.accept_all
                 Sample.migrated_db)
              Sample.first_without_down []
              [(1, Sample.f1); (2, Sample.f2); (3, Sample.f3)]
              [(3, Sample.f3); (2, Sample.f2)] [] (1, Sample.f1))
    as (w' & Hrun & Hc & _ & Htx & _);
    [ reflexivity | reflexivity | by vm_compute | reflexivity | reflexivity
    | vm_compute; repeat constructor; discriminate | by vm_compute
    | by vm_compute | ].
  exists w'. split_and!; [exact Hrun | exact Hc | exact Htx].
Defined.

(** X16: when the database refuses the down SQL of a row to revert, [r],
    after the more recent rows [l1] have been reverted, [down] rejects
    with the database's error for that SQL; the reverts of [l1] are
    committed and the row of [r] and the older rows stay in the ledger; no
    transaction is left open, [searchPath_] keeps the snapshot, and the
    run ends with the rollback to the savepoint and the commit. *)
Theorem down_refused_keeps_earlier (this : migrator) (optAmount : option Z)
    (w : world) (d : gmap string (option string))
    (older recent l1 l2 : list (nat * string)) (r : nat * string) :
  tx w = None →
  dir w = Some d →
  order_by_id (ledger (committed w)) = older ++ recent →
  length recent
  = Nat.min (Z.to_nat (Z.max 1 (default 1%Z optAmount)))
      (length (ledger (committed w))) →
  reverse recent = l1 ++ r :: l2 →
  Forall (λ r : nat * string, down_sql d r.2 ≠ ""%string) l1 →
  down_sql d r.2 ≠ ""%string →
  accepts_all (accepts w) (applied (committed w)) (down_sql d <$> l1.*2)
  = true →
  accepts w (applied (committed w) ++ (down_sql d <$> l1.*2))
    (down_sql d r.2) = false →
  ∃ w', Migrator.down this optAmount w
        = (Throw (DatabaseError (down_sql d r.2)), w')
    ∧ ledger (committed w')
      = filter (λ r : nat * string, r.1 ∉ l1.*1) (ledger (committed w))
    ∧ applied (committed w')
      = applied (committed w) ++ (down_sql d <$> l1.*2)
    ∧ search_path (committed w') = search_path (committed w)
    ∧ searchPath_ w' = Some (search_path (committed w))
    ∧ tx w' = None
    ∧ trace w'
      = trace w ++ prelude_events this
        ++ [EvFindAll; EvQuery "SHOW search_path"]
        ++ downs_events this d l1
        ++ refused_events this r.2 (down_sql d r.2).
Proof.
  intros Htx Hdir Hord Hlen Hrev Hall Hm Hacc Href.
  assert ((length (to_instance <$> recent) =? 0)%nat = false) as Hlen0.
  { rewrite length_fmap, <- length_reverse, Hrev, length_app.
    apply Nat.eqb_neq. cbn. lia. }
  eexists; split.
  { unfold Migrator.down.
    eapply bind_ok_eq; [apply sync_run|].
    rewrite transaction_begin; [|done].
    eapply try_throw_eq;
     [ apply bind_throw;
       (eapply bind_ok_eq; [eapply lockTable_ok; reflexivity|]);
       (eapply bind_ok_eq;
        [eapply (recentlyExecuted_run _ _ _ _ _ older recent);
         [reflexivity | reflexivity | by eexists | exact Hord | exact Hlen]|]);
       rewrite Hlen0, <- fmap_reverse, Hrev;
       (eapply try_throw_eq;
        [ (eapply bind_ok_eq; [eapply saveSearchPath_ok; reflexivity|]);
          apply bind_throw; unfold Migrator.migrationsDown_;
          apply bind_throw;
          eapply (for_of_down_refused this Transaction d l1 r l2);
          [ reflexivity | reflexivity | reflexivity | by eexists | done
          | done | done | exact Hacc | exact Href ]
        | reflexivity ])
     | reflexivity ]. }
  cbn. destruct (record_downs_fields d l1 (synced (committed w)))
    as (Hl & _ & Ha & Hq).
  change (default [] (table ?s)) with (ledger s).
  rewrite Hl, Ha, Hq. cbn.
  split_and!; [done.. | by rewrite <- !(assoc_L (++)) ].
Qed.

Lemma down_refused_keeps_earlier_witness :
  ∃ w', Migrator.down Sample.this (Some 2%Z)
          (Sample.world_of Sample.three Sample.refuse_drop_posts
             Sample.migrated_db)
        = (Throw (DatabaseError (kDefaultDelimiter +:+ "drop table posts")),
           w')
    ∧ ledger (committed w') = [(1, Sample.f1); (2, Sample.f2)]
    ∧ tx w' = None.
Proof.
  destruct (down_refused_keeps_earlier Sample.this (Some 2%Z)
              (Sample.world_of Sample.three Sample.refuse_drop_posts
                 Sample.migrated_db)
              Sample.three [(1, Sample.f1)]
              [(2, Sample.f2); (3, Sample.f3)]
              [(3, Sample.f3)] [] (2, Sample.f2))
    as (w' & Hrun & Hl & _ & _ & _ & Htx & _);
    [ reflexivity | reflexivity | by vm_compute | reflexivity | reflexivity
    | vm_compute; repeat constructor; discriminate | by vm_compute
    | by vm_compute | by vm_compute | ].
  exists w'. split_and!; [exact Hrun | | exact Htx].
  rewrite Hl. by vm_compute.
Defined.
Local Open Scope list_scope.

Section Edges.

Variable this : migrator.

Lemma transaction_closes {A} (cb : transaction → M A) w :
  tx w = None → tx (snd (sequelize_transaction cb w)) = None.
Proof.
  intros Htx. unfold sequelize_transaction. rewrite Htx.
  unfold try_catch, bind, commit, rollback, ret.
  destruct (cb Transaction _) as [[a|e] w1].
  - destruct (tx w1) as [x|] eqn:E; cbn; [done|]. by rewrite E.
  - destruct (tx w1) as [x|] eqn:E; cbn; [done|]. by rewrite E.
Qed.

Lemma slice_nil_inv {X} (n : Z) (l : list X) :
  slice (- Z.max 1 n) l = [] → l = [].
Proof.
  rewrite slice_neg by lia. intros H.
  apply (f_equal length) in H. rewrite length_drop in H. cbn in H.
  apply nil_length_inv. lia.
Qed.

(** [down] on an empty ledger only looks. *)
Lemma down_nothing_executed optAmount w :
  tx w = None → ledger (committed w) = [] →
  Migrator.down this optAmount w
  = (Ok None,
     set_committed (synced (committed w))
       (advance None (prelude_events this ++ [EvFindAll; EvCommit]) w)).
Proof.
  intros Htx Hl. unfold Migrator.down.
  eapply bind_ok_eq; [apply sync_run|].
  rewrite transaction_begin; [|done].
  eapply try_ok.
  eapply bind_ok_eq.
  - eapply bind_ok_eq; [eapply lockTable_ok; reflexivity|].
    eapply bind_ok_eq.
    { eapply (recentlyExecuted_run _ _ _ _ _ [] []);
        [reflexivity | reflexivity | by eexists | | ].
      - cbn. rewrite Hl. done.
      - cbn. rewrite Hl. cbn. lia. }
    reflexivity.
  - eapply bind_ok_eq; [eapply commit_ok; reflexivity|].
    unfold ret. f_equal. cbn.
    unfold advance, set_committed. cbn. f_equal.
    by rewrite <- !(assoc_L (++)).
Qed.

Lemma down_null_inv optAmount w w' :
  Migrator.down this optAmount w = (Ok None, w') →
  ledger (committed w) = [].
Proof.
  unfold Migrator.down. intros H.
  apply bind_ok_inv in H as ([] & wa & Hs & H).
  rewrite sync_run in Hs. injection Hs as <-.
  apply transaction_ok_inv in H as (Htx & wc & xc & H & Hxc & ->).
  apply bind_ok_inv in H as ([] & wl & Hl & H).
  erewrite lockTable_ok in Hl; [| reflexivity | reflexivity | reflexivity].
  injection Hl as <-.
  apply bind_ok_inv in H as (l & wp & Hp & H).
  erewrite (recentlyExecuted_run _ _ _ _ _
              (take (length (order_by_id (ledger (committed w)))
                     - Z.to_nat (Z.max 1 (default 1%Z optAmount)))
                 (order_by_id (ledger (committed w))))
              (slice (- Z.max 1 (default 1%Z optAmount))
                 (order_by_id (ledger (committed w))))) in Hp;
    [| reflexivity | reflexivity | by eexists | |].
  - injection Hp as <- <-.
    destruct (length _ =? 0)%nat eqn:Hlen.
    + apply Nat.eqb_eq in Hlen. rewrite length_fmap in Hlen.
      apply nil_length_inv, slice_nil_inv in Hlen.
      apply Permutation_nil. by rewrite <- Hlen, order_by_id_perm.
    + apply try_ok_inv in H as [H | (e & w1 & _ & H)]; [|done].
      apply bind_ok_inv in H as ([] & w1 & _ & H).
      apply bind_ok_inv in H as (ms & w2 & _ & H).
      apply bind_ok_inv in H as (sp & w3 & _ & H).
      apply bind_ok_inv in H as ([] & w4 & _ & H).
      by apply bind_ok_inv in H as ([] & w5 & _ & H).
  - cbn. rewrite slice_neg by lia. by rewrite take_drop.
  - cbn. rewrite slice_neg by lia. rewrite length_drop.
    rewrite (Permutation_length (order_by_id_perm _)). lia.
Qed.

Lemma up_null_inv w w' d :
  dir w = Some d → migrationFiles_ w = None →
  Migrator.up this w = (Ok None, w') →
  pending_names this d (committed w) = [].
Proof.
  unfold Migrator.up. intros Hd Hmf H.
  apply bind_ok_inv in H as ([] & wa & Hs & H).
  rewrite sync_run in Hs. injection Hs as <-.
  apply transaction_ok_inv in H as (Htx & wc & xc & H & Hxc & ->).
  apply bind_ok_inv in H as ([] & wl & Hl & H).
  erewrite lockTable_ok in Hl; [| reflexivity | reflexivity | reflexivity].
  injection Hl as <-.
  apply bind_ok_inv in H as (l & wp & Hp & H).
  erewrite (pending_ok _ _ _ _ d) in Hp;
    [| reflexivity | done | reflexivity | done | done].
  injection Hp as <- <-.
  destruct (length _ =? 0)%nat eqn:Hlen.
  - apply Nat.eqb_eq in Hlen. rewrite length_fmap in Hlen.
    by apply nil_length_inv in Hlen.
  - apply try_ok_inv in H as [H | (e & w1 & _ & H)]; [|done].
    apply bind_ok_inv in H as ([] & w1 & _ & H).
    apply bind_ok_inv in H as ([] & w2 & _ & H).
    apply bind_ok_inv in H as (ms & w3 & _ & H).
    apply bind_ok_inv in H as (sp & w4 & _ & H).
    apply bind_ok_inv in H as ([] & w5 & _ & H).
    by apply bind_ok_inv in H as ([] & w6 & _ & H).
Qed.

Lemma migrationFiles_unreadable w :
  migrationFiles_ w = None → dir w = None →
  migrationFiles this w
  = (Throw (IOError (migrationFilePath_ this)),
     advance (tx w) [EvReaddir (migrationFilePath_ this)] w).
Proof.
  intros Hmf Hd. unfold migrationFiles, read_migrationFiles_, bind, readdir.
  rewrite Hmf. cbn. by rewrite Hd.
Qed.

Lemma pending_unreadable t w x rows :
  tx w = Some x → failed x = false → table (work x) = Some rows →
  migrationFiles_ w = None → dir w = None →
  Migrator.pending this (Some t) w
  = (Throw (IOError (migrationFilePath_ this)),
     advance (Some x)
       [EvReaddir (migrationFilePath_ this); EvFindAll] w).
Proof.
  intros Hx Hf Ht Hmf Hd. unfold Migrator.pending, promise_all2, bind.
  rewrite migrationFiles_unreadable by done. unfold executed.
  erewrite findAll_ok; [| by rewrite <- Hx | done..].
  by rewrite advance_advance.
Qed.

End Edges.

(** X17: [down] fulfils with null exactly when the ledger is empty; it
    has then changed nothing in the database beyond what [model.sync()]
    does, sent only the prelude, the select and the commit, and left no
    transaction open. *)
Theorem down_null_iff (this : migrator) (optAmount : option Z) (w : world) :
  tx w = None →
  ((∃ w', Migrator.down this optAmount w = (Ok None, w'))
   ↔ ledger (committed w) = [])
  ∧ ∀ w', Migrator.down this optAmount w = (Ok None, w') →
      committed w' = synced (committed w)
      ∧ tx w' = None
      ∧ searchPath_ w' = searchPath_ w
      ∧ trace w' = trace w ++ prelude_events this ++ [EvFindAll; EvCommit].
Proof.
  intros Htx. split; [split|].
  - intros [w' H]. by eapply down_null_inv.
  - intros Hl. eexists. by apply down_nothing_executed.
  - intros w' H. pose proof (down_null_inv _ _ _ _ H) as Hl.
    rewrite down_nothing_executed in H by done. by injection H as <-.
Qed.

Lemma down_null_iff_witness :
  ∃ w', Migrator.down Sample.this None
          (Sample.world_of Sample.three Sample.accept_all Sample.empty_db)
        = (Ok None, w').
Proof.
  destruct (down_null_iff Sample.this None
              (Sample.world_of Sample.three Sample.accept_all
                 Sample.empty_db)) as [[_ H] _]; [reflexivity|].
  apply H. reflexivity.
Defined.

(** X18: on a readable directory [up] fulfils with null exactly when no
    migration is pending; it has then changed nothing in the database
    beyond what [model.sync()] does, sent only the prelude, the listing,
    the select and the commit (no search path statement), and left no
    transaction open. *)
Theorem up_null_iff (this : migrator) (w : world)
    (d : gmap string (option string)) :
  tx w = None →
  migrationFiles_ w = None →
  dir w = Some d →
  ((∃ w', Migrator.up this w = (Ok None, w'))
   ↔ pending_names this d (committed w) = [])
  ∧ ∀ w', Migrator.up this w = (Ok None, w') →
      committed w' = synced (committed w)
      ∧ tx w' = None
      ∧ searchPath_ w' = searchPath_ w
      ∧ trace w'
        = trace w ++ prelude_events this
          ++ [EvReaddir (migrationFilePath_ this); EvFindAll; EvCommit].
Proof.
  intros Htx Hmf Hd.
  assert (pending_names this d (committed w) = [] →
          Migrator.up this w
          = (Ok None,
             set_committed (synced (committed w))
               (advance None
                  (prelude_events this
                   ++ [EvReaddir (migrationFilePath_ this); EvFindAll;
                       EvCommit]) w))) as Hrun.
  { intros Hp. unfold Migrator.up.
    eapply bind_ok_eq; [apply sync_run|].
    rewrite transaction_begin; [|done].
    eapply try_ok.
    eapply bind_ok_eq.
    - eapply bind_ok_eq; [eapply lockTable_ok; reflexivity|].
      eapply bind_ok_eq.
      { eapply (pending_ok _ _ _ _ d);
          [reflexivity | done | reflexivity | done | done]. }
      fold (pending_names this d (committed w)). rewrite Hp. reflexivity.
    - eapply bind_ok_eq; [eapply commit_ok; reflexivity|].
      unfold ret. f_equal. cbn.
      unfold advance, set_committed. cbn. f_equal.
      by rewrite <- !(assoc_L (++)). }
  split; [split|].
  - intros [w' H]. by eapply up_null_inv.
  - intros Hp. eexists. by apply Hrun.
  - intros w' H. pose proof (up_null_inv _ _ _ _ Hd Hmf H) as Hp.
    rewrite Hrun in H by done. by injection H as <-.
Qed.

Lemma up_null_iff_witness :
  ∃ w', Migrator.up Sample.this
          (Sample.world_of Sample.three Sample.accept_all Sample.migrated_db)
        = (Ok None, w').
Proof.
  destruct (up_null_iff Sample.this
              (Sample.world_of Sample.three Sample.accept_all
                 Sample.migrated_db) Sample.three) as [[_ H] _];
    [reflexivity | reflexivity | reflexivity |].
  apply H. by vm_compute.
Defined.

(** X19: when the migrations directory cannot be read, [up] rejects with
    the error of [fs.readdir] and rolls its transaction back; the select
    of the ledger has been sent nevertheless ([Promise.all] starts both),
    no file has been read and no search path statement sent, and the
    database is as [model.sync()] left it. *)
Theorem up_unreadable_directory (this : migrator) (w : world) :
  tx w = None →
  migrationFiles_ w = None →
  dir w = None →
  ∃ w', Migrator.up this w = (Throw (IOError (migrationFilePath_ this)), w')
    ∧ committed w' = synced (committed w)
    ∧ tx w' = None
    ∧ searchPath_ w' = searchPath_ w
    ∧ trace w'
      = trace w ++ prelude_events this
        ++ [EvReaddir (migrationFilePath_ this); EvFindAll; EvRollback].
Proof.
  intros Htx Hmf Hd. eexists. split.
  { unfold Migrator.up.
    eapply bind_ok_eq; [apply sync_run|].
    rewrite transaction_begin; [|done].
    eapply try_throw_eq;
      [ apply bind_throw;
        (eapply bind_ok_eq; [eapply lockTable_ok; reflexivity|]);
        apply bind_throw;
        eapply pending_unreadable;
        [reflexivity | reflexivity | reflexivity | done | done]
      | reflexivity ]. }
  cbn. split_and!; [| done | done | by rewrite <- !(assoc_L (++)) ].
  unfold restore. by destruct (committed w).
Qed.

Lemma up_unreadable_directory_witness :
  ∃ w', Migrator.up Sample.this
          {| dir := None; accepts := Sample.accept_all;
             committed := Sample.migrated_db; tx := None;
             migrationFiles_ := None; searchPath_ := None; trace := [] |}
        = (Throw (IOError "/migrations"), w')
    ∧ committed w' = Sample.migrated_db.
Proof.
  destruct (up_unreadable_directory Sample.this
              {| dir := None; accepts := Sample.accept_all;
                 committed := Sample.migrated_db; tx := None;
                 migrationFiles_ := None; searchPath_ := None;
                 trace := [] |})
    as (w' & Hrun & Hc & _); [reflexivity | reflexivity | reflexivity |].
  exists w'. split; [exact Hrun | exact Hc].
Defined.

(** X20: whatever the directory, the files and the database do, a call
    of [up] or [down] that starts outside a transaction ends outside one:
    the transaction it opens, and with it the lock on the ledger table, is
    committed or rolled back on every path. *)
Theorem runs_close_transaction (this : migrator) (optAmount : option Z)
    (w : world) :
  tx w = None →
  tx (snd (Migrator.up this w)) = None
  ∧ tx (snd (Migrator.down this optAmount w)) = None.
Proof.
  intros Htx. unfold Migrator.up, Migrator.down, bind, ensureTableExists_.
  rewrite sync_run. split; by apply transaction_closes.
Qed.

Lemma runs_close_transaction_witness :
  tx (snd (Migrator.up Sample.this
             (Sample.world_of Sample.second_unreadable Sample.refuse_posts
                Sample.empty_db))) = None
  ∧ tx (snd (Migrator.down Sample.this (Some 2%Z)
               (Sample.world_of Sample.second_unreadable Sample.refuse_posts
                  Sample.empty_db))) = None.
Proof.
  apply (runs_close_transaction Sample.this (Some 2%Z)
           (Sample.world_of Sample.second_unreadable Sample.refuse_posts
              Sample.empty_db)).
  reflexivity.
Defined.
(** ** The promise-chain Migrator *)

Local Open Scope list_scope.

Section ChainRuns.

Variable this : migrator.
Variable t : transaction.

Lemma files_of_none w :
  files_of this w = None → migrationFiles_ w = None ∧ dir w = None.
Proof.
  unfold files_of. destruct (migrationFiles_ w); [done|].
  by destruct (dir w).
Qed.

(** With the built-in [Promise], [pending] starts the listing and the
    select and then throws at [.spread]. *)
Lemma chain_pending_native w x rows :
  tx w = Some x → failed x = false → table (work x) = Some rows →
  ∃ evs, PromiseChain.pending Native this (Some t) w
         = (Throw (TypeError "Promise.all(...).spread is not a function"),
            advance (Some x) evs w).
Proof.
  intros Hx Hf Ht. unfold PromiseChain.pending, promise_all2, executed.
  destruct (files_of this w) as [F|] eqn:HF.
  - rewrite (migrationFiles_run _ _ _ HF).
    erewrite findAll_ok; [| by rewrite <- Hx | done..].
    rewrite advance_advance. by eexists.
  - apply files_of_none in HF as [Hmf Hd].
    rewrite migrationFiles_unreadable by done.
    erewrite findAll_ok; [| by rewrite <- Hx | done..].
    rewrite advance_advance. by eexists.
Qed.

Lemma chain_pending_bluebird w x d rows :
  tx w = Some x → failed x = false → table (work x) = Some rows →
  migrationFiles_ w = None → dir w = Some d →
  PromiseChain.pending Bluebird this (Some t) w
  = (Ok (build <$> sort (difference (listing this d) (order_by_id rows).*2)),
     advance (Some x) [EvReaddir (migrationFilePath_ this); EvFindAll] w).
Proof. apply pending_ok. Qed.

Lemma chain_recentlyExecuted :
  PromiseChain.recentlyExecuted this = Migrator.recentlyExecuted this.
Proof. reflexivity. Qed.

(** The loops of the promise-chain file never get past their first
    step. *)
Lemma chain_migrationsUp_throws P m ms w :
  PromiseChain.migrationsUp_ P this (m :: ms) t w
  = (Throw (match P with
            | Native => TypeError "Promise.each is not a function"
            | Bluebird => ReferenceError "readFile is not defined"
            end), w).
Proof. by destruct P. Qed.

Lemma chain_migrationsDown_throws P m ms w :
  PromiseChain.migrationsDown_ P this (m :: ms) t w
  = (Throw (match P with
            | Native => TypeError "Promise.each is not a function"
            | Bluebird => ReferenceError "readFile is not defined"
            end), w).
Proof. by destruct P. Qed.

End ChainRuns.

(** X21: with the built-in [Promise] the promise-chain [up] rejects on
    every call that starts outside a transaction, whatever the directory and
    the ledger hold, with the TypeError of the missing [.spread]; the
    transaction is rolled back and the database is as [model.sync()] left
    it. *)
Theorem chain_native_up_always_rejects (this : migrator) (w : world) :
  tx w = None →
  fst (PromiseChain.up Native this w)
  = Throw (TypeError "Promise.all(...).spread is not a function")
  ∧ committed (snd (PromiseChain.up Native this w)) = synced (committed w)
  ∧ tx (snd (PromiseChain.up Native this w)) = None.
Proof.
  intros Htx.
  set (x0 := set_locked true (fresh_txn (synced (committed w)))).
  set (w0 := advance (Some x0)
               [EvQuery ("LOCK TABLE " +:+ getTableName this
                         +:+ " IN ACCESS EXCLUSIVE MODE")]
               (advance (Some (fresh_txn (synced (committed w)))) [EvBegin]
                  (set_committed (synced (committed w)) (log EvSync w)))).
  destruct (chain_pending_native this Transaction w0 x0
              (ledger (committed w))) as [evs Hp]; [done..|].
  assert (∃ w', PromiseChain.up Native this w
                = (Throw (TypeError
                            "Promise.all(...).spread is not a function"), w')
                ∧ committed w' = synced (committed w) ∧ tx w' = None)
    as (w' & -> & Hc & Hx); [|done].
  eexists. split.
  { unfold PromiseChain.up.
    eapply bind_ok_eq; [apply sync_run|].
    rewrite transaction_begin; [|done].
    eapply try_throw_eq;
      [ apply bind_throw;
        (eapply bind_ok_eq; [eapply lockTable_ok; reflexivity|]);
        apply bind_throw; exact Hp
      | reflexivity ]. }
  cbn. split; [|done]. unfold restore. by destruct (committed w).
Qed.

Lemma chain_native_up_always_rejects_witness :
  fst (PromiseChain.up Native Sample.this
         (Sample.world_of Sample.three Sample.accept_all Sample.migrated_db))
  = Throw (TypeError "Promise.all(...).spread is not a function").
Proof.
  apply (chain_native_up_always_rejects Sample.this
           (Sample.world_of Sample.three Sample.accept_all
              Sample.migrated_db)).
  reflexivity.
Defined.

(** X22: with Bluebird as [Promise], the promise-chain [up] on a
    directory with pending migrations rejects with the ReferenceError of
    the undeclared [readFile]: it has taken the snapshot of the search
    path and set the schema, but read no file and sent no migration SQL;
    the transaction is rolled back, the database is as [model.sync()] left
    it and [searchPath_] keeps the snapshot. *)
Theorem chain_bluebird_up_rejects_pending (this : migrator) (w : world)
    (d : gmap string (option string)) :
  tx w = None →
  migrationFiles_ w = None →
  dir w = Some d →
  pending_names this d (committed w) ≠ [] →
  ∃ w', PromiseChain.up Bluebird this w
        = (Throw (ReferenceError "readFile is not defined"), w')
    ∧ committed w' = synced (committed w)
    ∧ searchPath_ w' = Some (search_path (committed w))
    ∧ tx w' = None
    ∧ trace w'
      = trace w ++ prelude_events this
        ++ [EvReaddir (migrationFilePath_ this); EvFindAll;
            EvQuery "SHOW search_path"]
        ++ set_path_events (schema_ this)
        ++ [EvRollback].
Proof.
  intros Htx Hmf Hdir Hne.
  destruct (pending_names this d (committed w)) as [|m ms] eqn:Hp; [done|].
  destruct (truthy (JStr (schema_ this))) eqn:Hs.
  all: eexists; split.
  1,3: unfold PromiseChain.up;
    (eapply bind_ok_eq; [apply sync_run|]);
    (rewrite transaction_begin; [|done]);
    (eapply try_throw_eq;
     [ apply bind_throw;
       (eapply bind_ok_eq; [eapply lockTable_ok; reflexivity|]);
       (eapply bind_ok_eq;
        [eapply (chain_pending_bluebird _ _ _ _ d);
         [reflexivity | done | reflexivity | done | done]|]);
       fold (pending_names this d (committed w)); rewrite Hp;
       cbn [fmap list_fmap length Nat.eqb];
       (eapply try_throw_eq;
        [ (eapply bind_ok_eq; [eapply saveSearchPath_ok; reflexivity|]);
          (eapply bind_ok_eq; [eapply setSearchPath_run; reflexivity|]);
          apply bind_throw; apply chain_migrationsUp_throws
        | reflexivity ])
     | reflexivity ]).
  all: unfold set_path_events; rewrite Hs; cbn;
    (split_and!; [| done | done | by rewrite <- !(assoc_L (++)) ]);
    unfold restore; by destruct (committed w).
Qed.

Lemma chain_bluebird_up_rejects_pending_witness :
  ∃ w', PromiseChain.up Bluebird Sample.this
          (Sample.world_of Sample.three Sample.accept_all Sample.empty_db)
        = (Throw (ReferenceError "readFile is not defined"), w')
    ∧ ledger (committed w') = [].
Proof.
  destruct (chain_bluebird_up_rejects_pending Sample.this
              (Sample.world_of Sample.three Sample.accept_all
                 Sample.empty_db) Sample.three)
    as (w' & Hrun & Hc & _);
    [reflexivity | reflexivity | reflexivity | by vm_compute |].
  exists w'. split; [exact Hrun | by rewrite Hc].
Defined.

(** X23: on a ledger that is not empty the promise-chain [down] rejects,
    with the TypeError of the missing [Promise.each] under the built-in
    [Promise] and with the ReferenceError of the undeclared [readFile]
    under Bluebird: it has taken the snapshot of the search path, but read
    no file and reverted nothing; the transaction is rolled back and the
    database is as [model.sync()] left it. *)
Theorem chain_down_never_reverts (P : promise_impl) (this : migrator)
    (optAmount : option Z) (w : world) :
  tx w = None →
  ledger (committed w) ≠ [] →
  ∃ w', PromiseChain.down P this optAmount w
        = (Throw (match P with
                  | Native => TypeError "Promise.each is not a function"
                  | Bluebird => ReferenceError "readFile is not defined"
                  end), w')
    ∧ committed w' = synced (committed w)
    ∧ searchPath_ w' = Some (search_path (committed w))
    ∧ tx w' = None
    ∧ trace w'
      = trace w ++ prelude_events this
        ++ [EvFindAll; EvQuery "SHOW search_path"; EvRollback].
Proof.
  intros Htx Hne.
  set (n := Z.max 1 (default 1%Z optAmount)).
  set (rows := order_by_id (ledger (committed w))).
  set (older := take (length rows - Z.to_nat n) rows).
  set (recent := slice (- n) rows).
  assert (rows = older ++ recent) as Hord.
  { unfold older, recent. rewrite slice_neg by lia. by rewrite take_drop. }
  assert (length recent
          = Nat.min (Z.to_nat n) (length (ledger (committed w)))) as Hlen.
  { unfold recent. rewrite slice_neg by lia. rewrite length_drop.
    unfold rows. rewrite (Permutation_length (order_by_id_perm _)). lia. }
  destruct (to_instance <$> recent) as [|m ms] eqn:Hrec.
  { exfalso. apply fmap_nil_inv in Hrec. rewrite Hrec in Hlen. cbn in Hlen.
    destruct (ledger (committed w)); [done|]. cbn in Hlen. lia. }
  destruct (reverse (m :: ms)) as [|m' ms'] eqn:Hrev.
  { apply (f_equal length) in Hrev. by rewrite length_reverse in Hrev. }
  eexists; split.
  { unfold PromiseChain.down.
    eapply bind_ok_eq; [apply sync_run|].
    rewrite transaction_begin; [|done].
    eapply try_throw_eq;
     [ apply bind_throw;
       (eapply bind_ok_eq; [eapply lockTable_ok; reflexivity|]);
       (eapply bind_ok_eq;
        [ rewrite chain_recentlyExecuted;
          eapply (recentlyExecuted_run _ _ _ _ _ older recent);
          [reflexivity | reflexivity | by eexists | exact Hord | exact Hlen]
        |]);
       rewrite Hrec; cbn [length Nat.eqb]; rewrite Hrev;
       (eapply try_throw_eq;
        [ (eapply bind_ok_eq; [eapply saveSearchPath_ok; reflexivity|]);
          apply bind_throw; apply chain_migrationsDown_throws
        | reflexivity ])
     | reflexivity ]. }
  cbn. split_and!; [| done | done | by rewrite <- !(assoc_L (++)) ].
  unfold restore. by destruct (committed w).
Qed.

Lemma chain_down_never_reverts_witness :
  ∃ w', PromiseChain.down Bluebird Sample.this (Some 2%Z)
          (Sample.world_of Sample.three Sample.accept_all Sample.migrated_db)
        = (Throw (ReferenceError "readFile is not defined"), w')
    ∧ committed w' = Sample.migrated_db.
Proof.
  destruct (chain_down_never_reverts Bluebird Sample.this (Some 2%Z)
              (Sample.world_of Sample.three Sample.accept_all
                 Sample.migrated_db))
    as (w' & Hrun & Hc & _); [reflexivity | done |].
  exists w'. split; [exact Hrun | exact Hc].
Defined.

(** X24: where there is nothing to do the two files behave alike: on an
    empty ledger the promise-chain [down] does exactly what the [down] of
    [Migrator.js] does, under either [Promise]; and with Bluebird, on a
    readable directory without pending migrations, the promise-chain [up]
    does exactly what the [up] of [Migrator.js] does. *)
Theorem chain_agrees_when_idle (P : promise_impl) (this : migrator)
    (optAmount : option Z) (w : world) :
  tx w = None →
  (ledger (committed w) = [] →
   PromiseChain.down P this optAmount w = Migrator.down this optAmount w)
  ∧ ∀ d, migrationFiles_ w = None → dir w = Some d →
      pending_names this d (committed w) = [] →
      PromiseChain.up Bluebird this w = Migrator.up this w.
Proof.
  intros Htx. split.
  - intros Hl. rewrite down_nothing_executed by done.
    unfold PromiseChain.down.
    eapply bind_ok_eq; [apply sync_run|].
    rewrite transaction_begin; [|done].
    eapply try_ok.
    eapply bind_ok_eq.
    + eapply bind_ok_eq; [eapply lockTable_ok; reflexivity|].
      eapply bind_ok_eq.
      { rewrite chain_recentlyExecuted.
        eapply (recentlyExecuted_run _ _ _ _ _ [] []);
          [reflexivity | reflexivity | by eexists | | ].
        - cbn. rewrite Hl. done.
        - cbn. rewrite Hl. cbn. lia. }
      reflexivity.
    + eapply bind_ok_eq; [eapply commit_ok; reflexivity|].
      unfold ret. f_equal. cbn.
      unfold advance, set_committed. cbn. f_equal.
      by rewrite <- !(assoc_L (++)).
  - intros d Hmf Hd Hp.
    transitivity
      (Ok (None : option (list string)),
       set_committed (synced (committed w))
         (advance None
            (prelude_events this
             ++ [EvReaddir (migrationFilePath_ this); EvFindAll; EvCommit])
            w)); [|symmetry].
    all: unfold PromiseChain.up, Migrator.up;
      (eapply bind_ok_eq; [apply sync_run|]);
      (rewrite transaction_begin; [|done]);
      eapply try_ok;
      (eapply bind_ok_eq;
       [ (eapply bind_ok_eq; [eapply lockTable_ok; reflexivity|]);
         (eapply bind_ok_eq;
          [ first [ eapply (chain_pending_bluebird _ _ _ _ d)
                  | eapply (pending_ok _ _ _ _ d) ];
            [reflexivity | done | reflexivity | done | done] |]);
         fold (pending_names this d (committed w)); rewrite Hp; reflexivity
       | (eapply bind_ok_eq; [eapply commit_ok; reflexivity|]);
         unfold ret; f_equal; cbn;
         unfold advance, set_committed; cbn; f_equal;
         by rewrite <- !(assoc_L (++)) ]).
Qed.

Lemma chain_agrees_when_idle_witness :
  PromiseChain.down Native Sample.this None
    (Sample.world_of Sample.three Sample.accept_all Sample.empty_db)
  = Migrator.down Sample.this None
      (Sample.world_of Sample.three Sample.accept_all Sample.empty_db).
Proof.
  destruct (chain_agrees_when_idle Native Sample.this None
              (Sample.world_of Sample.three Sample.accept_all
                 Sample.empty_db)) as [H _]; [reflexivity|].
  apply H. reflexivity.
Defined.
